(** * Construction-safety knowledge pipeline: cleaning, chunking, deduplication
      and the persisted knowledge store.

    A shallow embedding of [orchestrator/document_processor.py],
    [orchestrator/knowledge_base_manager.py] and [tools/kb_pipeline.py].

    Text is a list of characters; a character is a code point below 256 and
    the classification functions below are Python's [str] predicates on that
    range.  The two members of the source's patterns that lie outside it (the
    bullet U+2022 and the en/em dashes) cannot occur in a modelled text and
    are therefore absent from the character classes.

    Files hold the JSON document they encode ([json.dump] followed by
    [json.load] is taken to be the identity on record lists); a record is a
    dictionary whose known keys are optional typed fields. *)

From Stdlib Require Import Ascii String List Arith ZArith Lia Bool DecimalString.
From Stdlib Require QArith.
From stdpp Require Import base gmap strings list.

Abbreviation str := (list ascii).

(** A text literal. *)
Definition py (s : string) : str := list_ascii_of_string s.

(* ===================================================================== *)
(** * Python [str] primitives                                             *)
(* ===================================================================== *)

Definition code (c : ascii) : nat := nat_of_ascii c.

Definition in_range (lo hi : nat) (c : ascii) : bool :=
  (lo <=? code c) && (code c <=? hi).

Definition is_code (n : nat) (c : ascii) : bool := code c =? n.

(** [c.isspace()], also the class [\s] and what [strip()] and [split()] eat. *)
Definition isspace (c : ascii) : bool :=
  in_range 9 13 c || in_range 28 32 c || is_code 133 c || is_code 160 c.

(** The class [\d]. *)
Definition isdigit (c : ascii) : bool := in_range 48 57 c.

(** [c.isupper()] for one character. *)
Definition isupper_c (c : ascii) : bool :=
  in_range 65 90 c || in_range 192 214 c || in_range 216 222 c.

(** [c.islower()] for one character. *)
Definition islower_c (c : ascii) : bool :=
  in_range 97 122 c || is_code 170 c || is_code 181 c || is_code 186 c
  || in_range 223 246 c || in_range 248 255 c.

(** [c.isalpha()]. *)
Definition isalpha (c : ascii) : bool := isupper_c c || islower_c c.

(** The class [\w]. *)
Definition isword (c : ascii) : bool :=
  isalpha c || isdigit c || is_code 95 c
  || in_range 178 179 c || is_code 185 c || in_range 188 190 c.

(** The classes [[A-Z]], [[a-z]] and [[a-zA-Z]]. *)
Definition is_AZ (c : ascii) : bool := in_range 65 90 c.
Definition is_az (c : ascii) : bool := in_range 97 122 c.
Definition is_azAZ (c : ascii) : bool := is_az c || is_AZ c.

Definition lower_c (c : ascii) : ascii :=
  if isupper_c c then ascii_of_nat (code c + 32) else c.

(** The title case of one character, as [capitalize()] writes it: one
    character for most, the two characters "Ss" for the sharp s (223), and
    nothing the model can write for the micro sign (181) and the y with
    diaeresis (255), whose capitals lie beyond code 255. *)
Definition title_c (c : ascii) : option (list ascii) :=
  if in_range 97 122 c || in_range 224 246 c || in_range 248 254 c
  then Some [ascii_of_nat (code c - 32)]
  else if is_code 223 c then Some [ascii_of_nat 83; ascii_of_nat 115]
  else if is_code 181 c || is_code 255 c then None
  else Some [c].

Definition nl : ascii := ascii_of_nat 10.
Definition sp : ascii := ascii_of_nat 32.

Definition ascii_eqb (a b : ascii) : bool := Ascii.eqb a b.
Arguments ascii_eqb : simpl never.

(** [s.lower()] *)
Definition str_lower (s : str) : str := map lower_c s.

Fixpoint drop_while {A} (p : A → bool) (l : list A) : list A :=
  match l with
  | [] => []
  | x :: l' => if p x then drop_while p l' else l
  end.

(** [s.lstrip()], [s.rstrip()], [s.strip()] *)
Definition str_lstrip (s : str) : str := drop_while isspace s.
Definition str_rstrip (s : str) : str := rev (drop_while isspace (rev s)).
Definition str_strip (s : str) : str := str_rstrip (str_lstrip s).

(** [s.isupper()]: no lower-case character and at least one upper-case one. *)
Definition str_isupper (s : str) : bool :=
  negb (existsb islower_c s) && existsb isupper_c s.

(** [s.startswith(p)] *)
Fixpoint str_startswith (p s : str) : bool :=
  match p, s with
  | [], _ => true
  | a :: p', b :: s' => ascii_eqb a b && str_startswith p' s'
  | _ :: _, [] => false
  end.

(** [s.endswith(p)] *)
Definition str_endswith (p s : str) : bool := str_startswith (rev p) (rev s).

(** [sub in s] *)
Fixpoint str_contains (sub s : str) : bool :=
  str_startswith sub s ||
  match s with
  | [] => false
  | _ :: s' => str_contains sub s'
  end.

Definition cons_head (c : ascii) (ps : list str) : list str :=
  match ps with
  | [] => [[c]]
  | p :: ps' => (c :: p) :: ps'
  end.

(** [s.split(sep)] for a non-empty [sep]: cut at the leftmost occurrences.
    [skip] counts the characters of a recognised separator still to pass. *)
Fixpoint split_aux (sep : str) (skip : nat) (s : str) : list str :=
  match s with
  | [] => [[]]
  | c :: s' =>
      match skip with
      | S k => split_aux sep k s'
      | O =>
          if str_startswith sep s
          then [] :: split_aux sep (length sep - 1) s'
          else cons_head c (split_aux sep 0 s')
      end
  end.

Definition str_split (sep s : str) : list str := split_aux sep 0 s.

(** [s.split()]: the maximal runs of non-whitespace characters. *)
Fixpoint str_split_ws (s : str) : list str :=
  match s with
  | [] => []
  | c :: s' =>
      if isspace c then str_split_ws s'
      else match s' with
           | [] => [[c]]
           | d :: _ => if isspace d then [c] :: str_split_ws s'
                       else cons_head c (str_split_ws s')
           end
  end.

(** [sep.join(parts)] *)
Fixpoint str_join (sep : str) (parts : list str) : str :=
  match parts with
  | [] => []
  | [p] => p
  | p :: ps => p ++ sep ++ str_join sep ps
  end.

(** [s.replace(old, new)] for a non-empty [old]. *)
Fixpoint replace_aux (old new : str) (skip : nat) (s : str) : str :=
  match s with
  | [] => []
  | c :: s' =>
      match skip with
      | S k => replace_aux old new k s'
      | O =>
          if str_startswith old s
          then new ++ replace_aux old new (length old - 1) s'
          else c :: replace_aux old new 0 s'
      end
  end.

Definition str_replace (old new s : str) : str := replace_aux old new 0 s.

(** The maximal runs of [\w] characters of a text. *)
Fixpoint word_runs (s : str) : list str :=
  match s with
  | [] => []
  | c :: s' =>
      if negb (isword c) then word_runs s'
      else match s' with
           | [] => [[c]]
           | d :: _ => if negb (isword d) then [c] :: word_runs s'
                       else cons_head c (word_runs s')
           end
  end.

(** [s.splitlines()]: cut at every line boundary, a carriage return followed
    by a newline counting once; no empty last line. *)
Definition is_linebreak (c : ascii) : bool :=
  in_range 10 13 c || in_range 28 30 c || is_code 133 c.

Fixpoint str_splitlines (s : str) : list str :=
  match s with
  | [] => []
  | c :: s' =>
      if is_linebreak c then
        match s' with
        | d :: s'' =>
            if is_code 13 c && is_code 10 d then [] :: str_splitlines s''
            else [] :: str_splitlines s'
        | [] => [[]]
        end
      else cons_head c (str_splitlines s')
  end.

(** [s.capitalize()]; [None] when the result has a character beyond code
    255. *)
Definition str_capitalize (s : str) : option str :=
  match s with
  | [] => Some []
  | c :: s' =>
      match title_c c with
      | Some t => Some (t ++ str_lower s')
      | None => None
      end
  end.

(** [a < b] on texts: the order [sorted] uses. *)
Fixpoint str_ltb (a b : str) : bool :=
  match a, b with
  | _, [] => false
  | [], _ :: _ => true
  | x :: a', y :: b' =>
      if code x <? code y then true
      else if code y <? code x then false
      else str_ltb a' b'
  end.

(** [s[:n]] *)
Definition str_slice_to (n : nat) (s : str) : str := take n s.

Definition blank_line : str := [nl; nl].

(** Predicates on texts used to state properties. *)
Definition no_blank_line (s : str) : Prop := str_contains blank_line s = false.

Definition starts_clean (s : str) : bool :=
  match s with
  | [] => true
  | c :: _ => negb (isspace c)
  end.

Definition ends_clean (s : str) : bool := starts_clean (rev s).

(** A paragraph as [stripped_paragraphs] yields them: not empty, free of
    blank lines, with no white space at either end. *)
Definition tidy_paragraph (p : str) : Prop :=
  p ≠ [] ∧ no_blank_line p ∧ starts_clean p = true ∧ ends_clean p = true.

(** A group of paragraphs whose join, without the last paragraph, is shorter
    than [limit]. *)
Definition closes_at (limit : nat) (g : list str) : Prop :=
  ∃ init last, g = init ++ [last] ∧ length (str_join blank_line init) < limit.

(** A paragraph written on one line, with no white space at either end and
    no two spaces in a row. *)
Definition single_line (p : str) : Prop :=
  p ≠ [] ∧ (nl ∉ p) ∧ starts_clean p = true ∧ ends_clean p = true
  ∧ str_contains [sp; sp] p = false.

(* ===================================================================== *)
(** * Regular expressions as used through [re.match] and [re.search]      *)
(* ===================================================================== *)

Module Regex.

Inductive re : Type :=
| Void                        (* matches nothing *)
| Eps                         (* the empty word *)
| Cls (p : ascii → bool)      (* one character of a class *)
| Cat (a b : re)
| Alt (a b : re)
| Star (a : re)
| Bol                         (* ^ : only at the start of the subject *)
| Eol.                        (* $ : at the end, or before a final newline *)

(** Zero-width tests see whether the position is the start of the subject
    and what remains of it. *)
Definition at_eol (rest : str) : bool :=
  match rest with
  | [] => true
  | [c] => ascii_eqb c nl
  | _ => false
  end.

Fixpoint nullable (start : bool) (rest : str) (r : re) : bool :=
  match r with
  | Void => false
  | Eps => true
  | Cls _ => false
  | Cat a b => nullable start rest a && nullable start rest b
  | Alt a b => nullable start rest a || nullable start rest b
  | Star _ => true
  | Bol => start
  | Eol => at_eol rest
  end.

Definition is_void (r : re) : bool :=
  match r with Void => true | _ => false end.

Definition mk_cat (a b : re) : re :=
  if is_void a || is_void b then Void else Cat a b.

Definition mk_alt (a b : re) : re :=
  if is_void a then b else if is_void b then a else Alt a b.

(** The residual of [r] after reading [c], the first character of [cur]. *)
Fixpoint deriv (start : bool) (cur : str) (c : ascii) (r : re) : re :=
  match r with
  | Void | Eps | Bol | Eol => Void
  | Cls p => if p c then Eps else Void
  | Cat a b =>
      let left := mk_cat (deriv start cur c a) b in
      if nullable start cur a then mk_alt left (deriv start cur c b) else left
  | Alt a b => mk_alt (deriv start cur c a) (deriv start cur c b)
  | Star a => mk_cat (deriv start cur c a) (Star a)
  end.

(** Does some prefix of [s] match [r]? *)
Fixpoint match_here (start : bool) (s : str) (r : re) : bool :=
  if is_void r then false
  else if nullable start s r then true
  else match s with
       | [] => false
       | c :: s' => match_here false s' (deriv start s c r)
       end.

(** [re.match(r, s) is not None] *)
Definition re_match (r : re) (s : str) : bool := match_here true s r.

Fixpoint search_from (s : str) (r : re) : bool :=
  match_here false s r ||
  match s with
  | [] => false
  | _ :: s' => search_from s' r
  end.

(** [re.search(r, s) is not None] *)
Definition re_search (r : re) (s : str) : bool :=
  match_here true s r ||
  match s with
  | [] => false
  | _ :: s' => search_from s' r
  end.

(** Pattern syntax. *)
Definition chr (c : ascii) : re := Cls (ascii_eqb c).
(** A literal character under [re.IGNORECASE]. *)
Definition chr_i (c : ascii) : re :=
  Cls (fun x => ascii_eqb (lower_c x) (lower_c c)).
Definition lit (s : string) : re := fold_right (fun c r => Cat (chr c) r) Eps (py s).
Definition lit_i (s : string) : re := fold_right (fun c r => Cat (chr_i c) r) Eps (py s).
Definition plus (a : re) : re := Cat a (Star a).
Definition opt (a : re) : re := Alt a Eps.
Definition alts (l : list re) : re := fold_right Alt Void l.
Definition cats (l : list re) : re := fold_right Cat Eps l.
Definition one_of (s : string) : re := Cls (fun x => existsb (ascii_eqb x) (py s)).
Definition space : re := Cls isspace.
Definition digit : re := Cls isdigit.

End Regex.

(* ===================================================================== *)
(** * [orchestrator/document_processor.py]                                *)
(* ===================================================================== *)

(** A chunk as the chunker builds it: the dictionary
    [{"title": .., "content": .., "category": ..}]. *)
Record chunk : Type := mk_chunk {
  chunk_title : str;
  chunk_content : str;
  chunk_category : str
}.

Module DocumentProcessor.
Import Regex.

(** [UNWANTED_SECTION_HEADERS] *)
Definition UNWANTED_SECTION_HEADERS : list re :=
  [ cats [Bol; lit_i "table of contents"; Eol];
    cats [Bol; lit_i "list of figures"; Eol];
    cats [Bol; lit_i "list of tables"; Eol];
    cats [Bol; lit_i "preface"; Eol];
    cats [Bol; lit_i "foreword"; Eol];
    cats [Bol; lit_i "references"; Eol];
    cats [Bol; lit_i "bibliography"; Eol];
    cats [Bol; lit_i "works cited"; Eol];
    cats [Bol; lit_i "appendix"];
    cats [Bol; lit_i "appendices"; Eol];
    cats [Bol; lit_i "endnotes"; Eol];
    cats [Bol; lit_i "footnotes"; Eol];
    cats [Bol; lit_i "glossary"; Eol];
    cats [Bol; lit_i "index"; Eol];
    cats [Bol; lit_i "acknowledgment"; opt (chr_i "s"); Eol];
    cats [Bol; lit_i "about the author"; Eol] ].

(** [UNWANTED_PHRASES] *)
Definition UNWANTED_PHRASES : list re :=
  [ cats [Bol; lit_i "copyright"];
    chr_i (ascii_of_nat 169);
    lit_i "all rights reserved";
    cats [Bol; lit_i "isbn"];
    lit_i "published by";
    lit_i "publication date";
    cats [lit_i "this ";
          alts [lit_i "book"; lit_i "document"; lit_i "guide"; lit_i "manual";
                lit_i "chapter"];
          lit_i " ";
          alts [lit_i "will"; lit_i "shall"; lit_i "aims to";
                lit_i "is designed to"]];
    cats [lit_i "in this "; alts [lit_i "chapter"; lit_i "section"];
          lit_i ", "; alts [lit_i "we"; lit_i "you"]; lit_i " will"];
    cats [lit_i "about this ";
          alts [lit_i "book"; lit_i "document"; lit_i "guide"; lit_i "manual"]];
    cats [lit_i "for more information, ";
          alts [lit_i "visit"; lit_i "see"; lit_i "contact"]];
    lit_i "visit our website";
    lit_i "www.";
    lit_i "http://";
    lit_i "https://";
    lit_i "email:";
    lit_i "contact us";
    lit_i "@";
    lit_i "trademark";
    lit_i "disclaimer" ].

(** [PAGE_MARKERS] *)
Definition PAGE_MARKERS : list re :=
  [ cats [lit_i "page "; plus digit];
    cats [Bol; plus digit; Eol];
    cats [Bol; plus digit; Star space; lit_i "|"];
    cats [lit_i "|"; Star space; plus digit; Eol];
    cats [Bol; lit_i "page "; plus digit; lit_i " of "; plus digit];
    cats [Bol; plus digit; Star space; lit_i "/"; Star space; plus digit; Eol];
    cats [Bol; lit_i "chapter "; plus digit; Eol];
    cats [Bol; lit_i "section "; plus digit; opt (lit_i "."); Star digit; Eol];
    cats [Bol; plus digit; lit_i "."; plus digit; Eol] ].

Definition min_chunk_size : nat := 200.
Definition max_chunk_size : nat := 800.
Definition target_chunk_size : nat := 500.

(** [len(re.findall(r'\b[A-Z]{2,}\b', s))]: between two word boundaries the
    pattern can only match a whole run of word characters, so the matches are
    the runs made of two or more letters A-Z. *)
Definition count_caps_words (s : str) : nat :=
  length (filter (fun w => (2 <=? length w) && forallb is_AZ w = true)
                 (word_runs s)).

(** [w and w[0].isupper()] *)
Definition word_capitalized (w : str) : bool :=
  match w with
  | [] => false
  | c :: _ => isupper_c c
  end.

(** [_is_section_header] *)
Definition _is_section_header (text : str) : bool :=
  let text_stripped := str_strip text in
  if (length text_stripped <? 100) && str_isupper text_stripped
     && (5 <? length text_stripped) then true
  else if re_match (cats [Bol; opt (cats [lit_i "chapter"; plus space]);
                          plus digit; one_of ".:"; plus space; Cls is_azAZ])
                   text_stripped then true
  else if re_match (cats [Bol; plus digit; lit "."; plus digit; plus space;
                          Cls is_AZ])
                   text_stripped then true
  else if (length text_stripped <? 100)
          && (let words := str_split_ws text_stripped in
              (2 <=? length words) && (length words <=? 8)
              && (length (filter (fun w => word_capitalized w = true) words)
                    =? length words)
              && negb (str_endswith (py ".") text_stripped)) then true
  else if (length text_stripped <? 100)
          && (2 <=? count_caps_words text_stripped) then true
  else false.

(** [_is_list_item] *)
Definition list_markers : list re :=
  [ cats [Bol; one_of "-*"; plus space];
    cats [Bol; plus digit; one_of ".)"; plus space];
    cats [Bol; Cls is_azAZ; one_of ".)"; plus space] ].

Definition _is_list_item (text : str) : bool :=
  existsb (fun pattern => re_match pattern (str_strip text)) list_markers.

(** [_is_topic_change] *)
Definition topic_change_indicators : list re :=
  [ cats [Bol; alts [lit_i "however"; lit_i "meanwhile"; lit_i "in contrast";
                     lit_i "on the other hand"; lit_i "alternatively"]];
    cats [Bol; alts [cats [lit_i "step "; plus digit];
                     cats [lit_i "phase "; plus digit];
                     cats [lit_i "part "; plus digit]]];
    cats [Bol; alts [lit_i "important"; lit_i "note"; lit_i "warning";
                     lit_i "caution"; lit_i "remember"]] ].

Definition _is_topic_change (current_para next_para : str) : bool :=
  let next_lower := str_strip (str_lower next_para) in
  existsb (fun pattern => re_match pattern next_lower) topic_change_indicators.

Definition is_unwanted_header (para_lower : str) : bool :=
  existsb (fun pattern => re_match pattern para_lower) UNWANTED_SECTION_HEADERS.

(** The loop of [_remove_unwanted_sections]; [skip] is
    [skip_until_next_section]. *)
Fixpoint sections_loop (skip : bool) (paragraphs : list str) : list str :=
  match paragraphs with
  | [] => []
  | para :: rest =>
      let para_lower := str_lower (str_strip para) in
      if is_unwanted_header para_lower then sections_loop true rest
      else if skip then
        if _is_section_header para && negb (is_unwanted_header para_lower)
        then para :: sections_loop false rest
        else sections_loop true rest
      else para :: sections_loop false rest
  end.

Definition _remove_unwanted_sections (text : str) : str :=
  str_join blank_line (sections_loop false (str_split blank_line text)).

Definition contains_unwanted (para : str) : bool :=
  existsb (fun phrase_pattern => re_search phrase_pattern (str_lower para))
          UNWANTED_PHRASES.

Definition alpha_chars (para : str) : nat :=
  length (filter (fun c => isalpha c = true) para).

(** One turn of the loop of [_filter_paragraphs]: is [para] appended?
    [alpha_chars < len(para) * 0.3] is the integer test
    [10 * alpha_chars < 3 * len(para)]. *)
Definition keeps_paragraph (para : str) : bool :=
  let para_stripped := str_strip para in
  if contains_unwanted para then false
  else if _is_section_header para_stripped then true
  else if length para_stripped <? 15 then false
  else if (30 <? length para) && (10 * alpha_chars para <? 3 * length para)
  then false
  else true.

Definition filtered_paragraphs (text : str) : list str :=
  filter (fun para => keeps_paragraph para = true) (str_split blank_line text).

Definition _filter_paragraphs (text : str) : str :=
  str_join blank_line (filtered_paragraphs text).

(** One turn of the loop of [_remove_page_markers]: is [line] appended? *)
Definition keeps_line (line : str) : bool :=
  let line_lower := str_strip (str_lower line) in
  match str_strip line with
  | [] => true
  | _ :: _ =>
      if existsb (fun pattern => re_match pattern line_lower) PAGE_MARKERS
      then false
      else if length (str_strip line) <? 10 then false
      else if length (remove_dups (str_strip line)) <=? 3 then false
      else true
  end.

Definition _remove_page_markers (text : str) : str :=
  str_join [nl]
    (filter (fun line => keeps_line line = true) (str_split [nl] text)).

(** The loop of [_remove_repeated_content]. *)
Fixpoint repeated_loop (seen : gset str) (paragraphs : list str) : list str :=
  match paragraphs with
  | [] => []
  | para :: rest =>
      let para_clean := str_lower (str_strip para) in
      if bool_decide (para_clean ∈ seen) then repeated_loop seen rest
      else if length para_clean <? 30 then para :: repeated_loop seen rest
      else para :: repeated_loop ({[ para_clean ]} ∪ seen) rest
  end.

Definition _remove_repeated_content (text : str) : str :=
  str_join blank_line (repeated_loop ∅ (str_split blank_line text)).

(** [re.sub(c{k,}, repl, s)] for a character [c] and [k >= 1]: every maximal
    run of at least [k] copies of [c] becomes [repl]; [pending] counts the
    copies of the run being read. *)
Definition flush_run (c : ascii) (k : nat) (repl : str) (pending : nat) : str :=
  if k <=? pending then repl else repeat c pending.

Fixpoint sub_runs (c : ascii) (k : nat) (repl : str) (pending : nat) (s : str)
  : str :=
  match s with
  | [] => flush_run c k repl pending
  | x :: s' =>
      if ascii_eqb x c then sub_runs c k repl (S pending) s'
      else flush_run c k repl pending ++ x :: sub_runs c k repl 0 s'
  end.

(** Step 5 of [clean_text]. *)
Definition normalize_whitespace (text : str) : str :=
  let text := sub_runs nl 3 [nl; nl] 0 text in
  let text := sub_runs sp 2 [sp] 0 text in
  str_strip text.

(** What steps 1, 2 and 4 do to a list of paragraphs. *)
Definition cleaned_paragraphs (paragraphs : list str) : list str :=
  repeated_loop ∅
    (filter (fun para => keeps_paragraph para = true)
            (sections_loop false paragraphs)).

(** [clean_text] *)
Definition clean_text (text : str) : str :=
  let text := _remove_unwanted_sections text in
  let text := _filter_paragraphs text in
  let text := _remove_page_markers text in
  let text := _remove_repeated_content text in
  normalize_whitespace text.

(** [[p.strip() for p in text.split('\n\n') if p.strip()]] *)
Definition stripped_paragraphs (text : str) : list str :=
  filter (fun p => p ≠ []) (map str_strip (str_split blank_line text)).

(** [current_chunk += "\n\n"] when it is not empty, then [+= para]. *)
Definition add_paragraph (current_chunk para : str) : str :=
  match current_chunk with
  | [] => para
  | _ :: _ => current_chunk ++ blank_line ++ para
  end.

(** The splitting decision of [chunk_text] once [para] has been added;
    [next] is [paragraphs[i + 1]] when there is one. *)
Definition should_split (current_chunk para : str) (next : option str) : bool :=
  let is_list_item := _is_list_item para in
  let next_is_list :=
    match next with Some next_para => _is_list_item next_para | None => false end in
  if max_chunk_size <=? length current_chunk then true
  else if target_chunk_size <=? length current_chunk then
    match next with
    | Some next_para =>
        if _is_section_header next_para then true
        else if negb next_is_list && negb is_list_item then true
        else if is_list_item && negb next_is_list then true
        else false
    | None => false
    end
  else if min_chunk_size <=? length current_chunk then
    match next with
    | Some next_para =>
        if _is_section_header next_para then true
        else if _is_topic_change para next_para && negb is_list_item then true
        else false
    | None => false
    end
  else false.

Definition nonblank (s : str) : bool :=
  match str_strip s with [] => false | _ :: _ => true end.

(** The main loop of [chunk_text] followed by the final flush, as the list of
    the chunks appended from this point on.  The floors
    [min_chunk_size * 0.5] and [min_chunk_size * 0.4] are written on
    integers. *)
Fixpoint chunk_loop (category : str) (paragraphs : list str)
    (current_chunk current_title : str) : list chunk :=
  match paragraphs with
  | [] =>
      if nonblank current_chunk && (4 * min_chunk_size <=? 10 * length current_chunk)
      then [mk_chunk current_title (str_strip current_chunk) category]
      else []
  | para :: rest =>
      if _is_section_header para then
        let current_title' := str_strip (take 100 para) in
        if nonblank current_chunk && (min_chunk_size <=? 2 * length current_chunk)
        then mk_chunk current_title (str_strip current_chunk) category
             :: chunk_loop category rest [] current_title'
        else chunk_loop category rest current_chunk current_title'
      else
        let current_chunk' := add_paragraph current_chunk para in
        if should_split current_chunk' para (head rest)
        then mk_chunk current_title (str_strip current_chunk') category
             :: chunk_loop category rest [] current_title
        else chunk_loop category rest current_chunk' current_title
  end.

(** [str(n)] *)
Definition str_of_nat (n : nat) : str :=
  py (NilZero.string_of_uint (Nat.to_uint n)).

(** [f"{title} (Part {part_num})" if part_num > 1 else title] *)
Definition part_title (title : str) (part_num : nat) : str :=
  if 1 <? part_num then title ++ py " (Part " ++ str_of_nat part_num ++ py ")"
  else title.

(** The inner loop of [_force_split_large_chunks] and the flush after it. *)
Fixpoint force_loop (title category : str) (paragraphs : list str)
    (sub_chunk : str) (part_num : nat) : list chunk :=
  match paragraphs with
  | [] =>
      if nonblank sub_chunk
      then [mk_chunk (part_title title part_num) (str_strip sub_chunk) category]
      else []
  | para :: rest =>
      let sub_chunk' := add_paragraph sub_chunk para in
      if target_chunk_size <=? length sub_chunk'
      then mk_chunk (part_title title part_num) (str_strip sub_chunk') category
           :: force_loop title category rest [] (S part_num)
      else force_loop title category rest sub_chunk' part_num
  end.

(** [_force_split_large_chunks] *)
Definition force_split_one (category : str) (c : chunk) : list chunk :=
  if length (chunk_content c) <=? max_chunk_size then [c]
  else force_loop (chunk_title c) category
                  (stripped_paragraphs (chunk_content c)) [] 1.

Definition _force_split_large_chunks (chunks : list chunk) (category : str)
  : list chunk :=
  concat (map (force_split_one category) chunks).

Definition total_content (chunks : list chunk) : nat :=
  list_sum (map (fun c => length (chunk_content c)) chunks).

(** Does [chunk_text] run the forced re-split on these chunks? *)
Definition needs_force_split (chunks : list chunk) : bool :=
  (length chunks <=? 2) && (2000 <? total_content chunks).

(** [chunk_text] *)
Definition chunk_text (text category : str) : list chunk :=
  let paragraphs := stripped_paragraphs text in
  let chunks := chunk_loop category paragraphs [] (py "Safety Information") in
  if needs_force_split chunks
  then _force_split_large_chunks chunks category
  else chunks.

(** The paragraphs the chunker puts into chunks: those that are not section
    headers. *)
Definition body_paragraphs (text : str) : list str :=
  filter (fun p => _is_section_header p = false) (stripped_paragraphs text).

End DocumentProcessor.

(* ===================================================================== *)
(** * [orchestrator/knowledge_base_manager.py]                            *)
(* ===================================================================== *)

(** A knowledge-base record: a dictionary with the keys the code reads or
    writes, each present ([Some]) or absent ([None]). *)
Module Entry.
Record t : Type := mk {
  title : option str;
  content : option str;
  category : option str;
  source : option str;
  keywords : option (list str);
  search_text : option str
}.

(** [entry.get(key, "")] *)
Definition get_title (e : t) : str := default [] (title e).
Definition get_content (e : t) : str := default [] (content e).

(** [entry[field]] for the three required keys; [None]: [field not in entry]. *)
Definition lookup (field : string) (e : t) : option str :=
  if String.eqb field "title" then title e
  else if String.eqb field "content" then content e
  else if String.eqb field "category" then category e
  else None.

Definition of_chunk (c : chunk) : t :=
  mk (Some (chunk_title c)) (Some (chunk_content c)) (Some (chunk_category c))
     None None None.
End Entry.

Abbreviation entry := Entry.t.

#[global] Instance entry_eq_dec : EqDecision entry.
Proof. solve_decision. Defined.

(* ===================================================================== *)
(** * [json.dump] and [json.load] on lists of records                      *)
(* ===================================================================== *)

Module Json.

Definition quote : ascii := ascii_of_nat 34.
Definition backslash : ascii := ascii_of_nat 92.

Definition hex_digit (n : nat) : ascii :=
  if n <? 10 then ascii_of_nat (48 + n) else ascii_of_nat (87 + n).

(** One character inside a string with [ensure_ascii=False]: the quote, the
    backslash and the control characters are escaped, every other character
    is written as it is. *)
Definition escape (c : ascii) : str :=
  if is_code 34 c then [backslash; quote]
  else if is_code 92 c then [backslash; backslash]
  else if is_code 10 c then backslash :: py "n"
  else if is_code 13 c then backslash :: py "r"
  else if is_code 9 c then backslash :: py "t"
  else if is_code 8 c then backslash :: py "b"
  else if is_code 12 c then backslash :: py "f"
  else if code c <? 32
  then backslash :: py "u00" ++ [hex_digit (code c / 16); hex_digit (code c mod 16)]
  else [c].

Definition dump_string (s : str) : str :=
  quote :: concat (map escape s) ++ [quote].

Definition indent (n : nat) : str := repeat sp n.

(** A container with [indent=2]: empty, or one item per line at depth
    [level + 1] and the closing bracket at depth [level]. *)
Definition dump_items (open_c close_c : ascii) (level : nat) (items : list str)
  : str :=
  match items with
  | [] => [open_c; close_c]
  | _ :: _ =>
      open_c :: nl
      :: str_join (py "," ++ [nl])
           (map (fun item => indent (2 * S level) ++ item) items)
      ++ nl :: indent (2 * level) ++ [close_c]
  end.

Definition dump_string_list (level : nat) (l : list str) : str :=
  dump_items "["%char "]"%char level (map dump_string l).

Definition member (key : string) (value : str) : str :=
  dump_string (py key) ++ py ": " ++ value.

Definition opt_member {A} (key : string) (dump : A → str) (field : option A)
  : list str :=
  match field with
  | Some v => [member key (dump v)]
  | None => []
  end.

(** The keys of a record in the order in which this code base inserts them
    (Python compares dictionaries whatever the order of their keys). *)
Definition members (level : nat) (e : entry) : list str :=
  opt_member "title" dump_string (Entry.title e)
  ++ opt_member "content" dump_string (Entry.content e)
  ++ opt_member "category" dump_string (Entry.category e)
  ++ opt_member "source" dump_string (Entry.source e)
  ++ opt_member "keywords" (dump_string_list (S level)) (Entry.keywords e)
  ++ opt_member "search_text" dump_string (Entry.search_text e).

Definition dump_entry (level : nat) (e : entry) : str :=
  dump_items "{"%char "}"%char level (members level e).

(** [json.dumps(entries, indent=2, ensure_ascii=False)] *)
Definition dumps (entries : list entry) : str :=
  dump_items "["%char "]"%char 0 (map (dump_entry 1) entries).

(** ** Decoding *)

Definition is_ws (c : ascii) : bool :=
  is_code 32 c || is_code 9 c || is_code 10 c || is_code 13 c.

Definition skip_ws (s : str) : str := drop_while is_ws s.

Definition hex_value (c : ascii) : option nat :=
  if in_range 48 57 c then Some (code c - 48)
  else if in_range 97 102 c then Some (code c - 87)
  else if in_range 65 70 c then Some (code c - 55)
  else None.

(** The character a one-letter escape stands for. *)
Definition unescape (c : ascii) : option ascii :=
  if is_code 34 c then Some quote
  else if is_code 92 c then Some backslash
  else if is_code 47 c then Some (ascii_of_nat 47)
  else if is_code 98 c then Some (ascii_of_nat 8)
  else if is_code 102 c then Some (ascii_of_nat 12)
  else if is_code 110 c then Some (ascii_of_nat 10)
  else if is_code 114 c then Some (ascii_of_nat 13)
  else if is_code 116 c then Some (ascii_of_nat 9)
  else None.

(** The character of [\uXXXX]; [None] for a malformed escape and for a code
    beyond 255, which no modelled text holds. *)
Definition unicode_escape (h1 h2 h3 h4 : ascii) : option ascii :=
  match hex_value h1, hex_value h2, hex_value h3, hex_value h4 with
  | Some a, Some b, Some c, Some d =>
      if (a =? 0) && (b =? 0) then Some (ascii_of_nat (16 * c + d)) else None
  | _, _, _, _ => None
  end.

Definition push {A} (c : ascii) (r : option (str * A)) : option (str * A) :=
  match r with
  | Some (s, rest) => Some (c :: s, rest)
  | None => None
  end.

(** The characters of a string up to its closing quote, and what follows. *)
Fixpoint string_body (s : str) : option (str * str) :=
  match s with
  | [] => None
  | c :: t1 =>
      if is_code 34 c then Some ([], t1)
      else if is_code 92 c then
        match t1 with
        | [] => None
        | e :: t2 =>
            if is_code 117 e then
              match t2 with
              | h1 :: h2 :: h3 :: h4 :: t6 =>
                  match unicode_escape h1 h2 h3 h4 with
                  | Some x => push x (string_body t6)
                  | None => None
                  end
              | _ => None
              end
            else
              match unescape e with
              | Some x => push x (string_body t2)
              | None => None
              end
        end
      else if code c <? 32 then None
      else push c (string_body t1)
  end.

Definition parse_string (s : str) : option (str * str) :=
  match s with
  | c :: t1 => if is_code 34 c then string_body t1 else None
  | [] => None
  end.

(** The items of a non-empty array or object after its opening bracket:
    [item] reads one, [close_c] ends the sequence. *)
Fixpoint parse_items {A} (item : str → option (A * str)) (close_c : ascii)
    (fuel : nat) (s : str) : option (list A * str) :=
  match fuel with
  | O => None
  | S fuel' =>
      match item s with
      | None => None
      | Some (x, rest) =>
          match skip_ws rest with
          | c :: rest' =>
              if ascii_eqb c close_c then Some ([x], rest')
              else if is_code 44 c then
                match parse_items item close_c fuel' (skip_ws rest') with
                | Some (xs, rest2) => Some (x :: xs, rest2)
                | None => None
                end
              else None
          | [] => None
          end
      end
  end.

(** An array or an object: empty, or a sequence of items.  Every item takes
    at least one character, so the length of the text is fuel enough. *)
Definition parse_container {A} (open_c close_c : ascii)
    (item : str → option (A * str)) (s : str) : option (list A * str) :=
  match s with
  | c :: rest =>
      if ascii_eqb c open_c then
        match skip_ws rest with
        | d :: rest' =>
            if ascii_eqb d close_c then Some ([], rest')
            else parse_items item close_c (length rest) (skip_ws rest)
        | [] => None
        end
      else None
  | [] => None
  end.

Inductive value : Type :=
| VStr (s : str)
| VList (l : list str).

(** A value a record can hold: a string or an array of strings. *)
Definition parse_value (s : str) : option (value * str) :=
  match s with
  | c :: _ =>
      if is_code 34 c then
        match parse_string s with
        | Some (x, rest) => Some (VStr x, rest)
        | None => None
        end
      else
        match parse_container "["%char "]"%char parse_string s with
        | Some (l, rest) => Some (VList l, rest)
        | None => None
        end
  | [] => None
  end.

(** [key: value] *)
Definition parse_member (s : str) : option ((str * value) * str) :=
  match parse_string s with
  | Some (key, rest) =>
      match skip_ws rest with
      | c :: rest' =>
          if is_code 58 c then
            match parse_value (skip_ws rest') with
            | Some (v, rest2) => Some ((key, v), rest2)
            | None => None
            end
          else None
      | [] => None
      end
  | None => None
  end.

Definition empty_entry : entry := Entry.mk None None None None None None.

(** [d[key] = value]; [None] for a key or a value the records do not have. *)
Definition set_member (e : entry) (kv : str * value) : option entry :=
  let '(key, v) := kv in
  let key := string_of_list_ascii key in
  match v with
  | VStr x =>
      if String.eqb key "title"
      then Some (Entry.mk (Some x) (Entry.content e) (Entry.category e)
                          (Entry.source e) (Entry.keywords e) (Entry.search_text e))
      else if String.eqb key "content"
      then Some (Entry.mk (Entry.title e) (Some x) (Entry.category e)
                          (Entry.source e) (Entry.keywords e) (Entry.search_text e))
      else if String.eqb key "category"
      then Some (Entry.mk (Entry.title e) (Entry.content e) (Some x)
                          (Entry.source e) (Entry.keywords e) (Entry.search_text e))
      else if String.eqb key "source"
      then Some (Entry.mk (Entry.title e) (Entry.content e) (Entry.category e)
                          (Some x) (Entry.keywords e) (Entry.search_text e))
      else if String.eqb key "search_text"
      then Some (Entry.mk (Entry.title e) (Entry.content e) (Entry.category e)
                          (Entry.source e) (Entry.keywords e) (Some x))
      else None
  | VList l =>
      if String.eqb key "keywords"
      then Some (Entry.mk (Entry.title e) (Entry.content e) (Entry.category e)
                          (Entry.source e) (Some l) (Entry.search_text e))
      else None
  end.

(** The dictionary built from the members in the order read: a key read
    twice keeps its last value. *)
Fixpoint build_entry (e : entry) (kvs : list (str * value)) : option entry :=
  match kvs with
  | [] => Some e
  | kv :: rest =>
      match set_member e kv with
      | Some e' => build_entry e' rest
      | None => None
      end
  end.

Definition parse_entry (s : str) : option (entry * str) :=
  match parse_container "{"%char "}"%char parse_member s with
  | Some (kvs, rest) =>
      match build_entry empty_entry kvs with
      | Some e => Some (e, rest)
      | None => None
      end
  | None => None
  end.

(** [json.loads(text)] when the document is a list of records; [None] when
    it is malformed, and also when it is another JSON value, which the type
    of records cannot hold. *)
Definition loads (text : str) : option (list entry) :=
  match parse_container "["%char "]"%char parse_entry (skip_ws text) with
  | Some (entries, rest) =>
      match skip_ws rest with
      | [] => Some entries
      | _ :: _ => None
      end
  | None => None
  end.

(** ** The written text, item by item

    The text of a container after its first indentation, and the members of
    a record as pairs of a key and a value: what the decoder meets when it
    reads back what the encoder wrote. *)

Fixpoint items_text {A} (dump : A → str) (k : nat) (xs : list A)
    (closing : str) : str :=
  match xs with
  | [] => closing
  | [x] => dump x ++ closing
  | x :: xs' => dump x ++ py "," ++ nl :: indent k ++ items_text dump k xs' closing
  end.

Definition dump_value (level : nat) (v : value) : str :=
  match v with
  | VStr s => dump_string s
  | VList l => dump_string_list level l
  end.

Definition dump_member (level : nat) (kv : str * value) : str :=
  dump_string kv.1 ++ py ": " ++ dump_value level kv.2.

Definition opt_pair {A} (key : string) (wrap : A → value) (field : option A)
  : list (str * value) :=
  match field with
  | Some v => [(py key, wrap v)]
  | None => []
  end.

Definition pairs (e : entry) : list (str * value) :=
  opt_pair "title" VStr (Entry.title e)
  ++ opt_pair "content" VStr (Entry.content e)
  ++ opt_pair "category" VStr (Entry.category e)
  ++ opt_pair "source" VStr (Entry.source e)
  ++ opt_pair "keywords" VList (Entry.keywords e)
  ++ opt_pair "search_text" VStr (Entry.search_text e).

End Json.

(* ===================================================================== *)
(** * Errors and files                                                    *)
(* ===================================================================== *)

(** The exceptions the store can raise.  [OSError] stands for every failure
    of [open] (a missing parent directory, a directory in place of the file,
    a refused permission; Python raises [OSError] or one of its subclasses).
    [JSONDecodeError] is raised by [json.load] on a text that is no JSON
    document; a well-formed document that holds anything but a list of
    records with text fields has no value in this development and is counted
    with the malformed ones. *)
Inductive error : Type :=
| FileNotFoundError (path : str)
| OSError (path : str)
| JSONDecodeError.

Inductive result (A : Type) : Type :=
| Ok (a : A)
| Raise (e : error).
Arguments Ok {A} a.
Arguments Raise {A} e.

Definition result_map {A B} (f : A → B) (r : result A) : result B :=
  match r with
  | Ok a => Ok (f a)
  | Raise e => Raise e
  end.

Definition result_bind {A B} (r : result A) (k : A → result B) : result B :=
  match r with
  | Ok a => k a
  | Raise e => Raise e
  end.

Declare Scope result_scope.
Delimit Scope result_scope with result.
Notation "'let*' x ':=' r 'in' k" := (result_bind r (fun x => k))
  (at level 10, x pattern, r at level 100, k at level 200,
   format "'[v' 'let*'  x  :=  r  'in'  '/' k ']'")
  : result_scope.

(** A file opened in text mode is read with universal newlines: a carriage
    return comes back as a line feed.  Only a text without carriage return
    is read back as it was written. *)
Definition no_carriage_return (text : str) : bool :=
  forallb (fun c => negb (is_code 13 c)) text.

(** What the code asks of the directory [kb_dir]: [Path.exists], reading a
    file opened with ['r'] and replacing the content of a file opened with
    ['w'], by the path relative to [kb_dir].  [fs_read] and [fs_write] give
    [None] when [open] raises.  The two laws are those of regular files: a
    file that was written exists, and reads back as the text written when
    that text has no carriage return. *)
Class FileSystem (FS : Type) : Type := {
  fs_exists : FS → str → bool;
  fs_read : FS → str → option str;
  fs_write : FS → str → str → option FS;
  fs_write_exists : ∀ fs path text fs',
    fs_write fs path text = Some fs' → fs_exists fs' path = true;
  fs_write_read : ∀ fs path text fs',
    no_carriage_return text = true →
    fs_write fs path text = Some fs' → fs_read fs' path = Some text
}.

(** A directory of plain files without sub-directories: a name with a
    separator or a NUL cannot be opened, nor the empty name. *)
Definition flat_dir : Type := gmap str str.

Definition plain_name (path : str) : bool :=
  match path with
  | [] => false
  | _ :: _ => negb (existsb (fun c => is_code 47 c || is_code 0 c) path)
  end.

Definition flat_write (d : flat_dir) (path text : str) : option flat_dir :=
  if plain_name path then Some (<[path := text]> d) else None.

#[export] Instance flat_dir_fs : FileSystem flat_dir.
Proof.
  refine {| fs_exists := fun d path => bool_decide (is_Some (d !! path));
            fs_read := fun d path => d !! path;
            fs_write := flat_write |}.
  - intros d path text d'. unfold flat_write.
    destruct (plain_name path); [|done]. intros [= <-].
    apply bool_decide_eq_true_2. exists text. apply lookup_insert_eq.
  - intros d path text d' _. unfold flat_write.
    destruct (plain_name path); [|done]. intros [= <-].
    apply lookup_insert_eq.
Defined.

(* ===================================================================== *)
(** * [orchestrator/knowledge_base_manager.py]                            *)
(* ===================================================================== *)

Module KnowledgeBaseManager.

Record import_record : Type := mk_import {
  import_category : str;
  chunks_added : nat;
  imported_at : str
}.

(** The contents of [.import_metadata.json]; the key ["content_hashes"] may be
    missing from a file written by hand. *)
Record metadata_t : Type := mk_metadata {
  imported_documents : gmap str import_record;
  content_hashes : option (gmap str (list str))
}.

(** The directory [kb_dir]: its files, and the metadata file, which
    [__init__] creates when it is missing.  The metadata file is kept as the
    value [_load_metadata] reads from it: only [_save_metadata] writes it,
    and its name is the name of no partition file. *)
Record store (FS : Type) : Type := mk_store {
  disk : FS;
  metadata : metadata_t
}.
Arguments mk_store {FS} disk metadata.
Arguments disk {FS} s.
Arguments metadata {FS} s.

(** The metadata [_ensure_metadata_exists] writes. *)
Definition initial_metadata : metadata_t := mk_metadata ∅ (Some ∅).

(** [f"{category}_base.json"] *)
Definition kb_file (category : str) : str := category ++ py "_base.json".

(** [set(text.lower().strip().split())] *)
Definition word_set (text : str) : gset str :=
  list_to_set (str_split_ws (str_strip (str_lower text))).

(** [_compute_similarity]; the quotient of the two sizes is kept exact. *)
Definition _compute_similarity (text1 text2 : str) : QArith_base.Q :=
  let words1 := word_set text1 in
  let words2 := word_set text2 in
  if bool_decide (words1 = ∅) || bool_decide (words2 = ∅)
  then QArith_base.Qmake 0 1
  else
    let intersection := size (words1 ∩ words2) in
    let union := size (words1 ∪ words2) in
    if 0 <? union
    then QArith_base.Qmake (Z.of_nat intersection) (Pos.of_nat union)
    else QArith_base.Qmake 0 1.

(** [similarity >= similarity_threshold] *)
Definition similar_enough (similarity threshold : QArith_base.Q) : bool :=
  QArith_base.Qle_bool threshold similarity.

Definition default_threshold : QArith_base.Q := QArith_base.Qmake 1 2.

(** [validate_entry] *)
Definition required_fields : list string := ["title"; "content"; "category"]%string.

Fixpoint validate_fields (fields : list string) (e : entry) : bool :=
  match fields with
  | [] => true
  | field :: rest =>
      match Entry.lookup field e with
      | None => false
      | Some v =>
          match v, str_strip v with
          | [], _ => false
          | _, [] => false
          | _, _ => validate_fields rest e
          end
      end
  end.

Definition validate_entry (e : entry) : bool := validate_fields required_fields e.

(** [search_knowledge_base]: the loop, with its [break]. *)
Definition limit_reached (limit : option Z) (results : list entry) : bool :=
  match limit with
  | None => false
  | Some l => negb (l =? 0)%Z && (l <=? Z.of_nat (length results))%Z
  end.

Definition entry_matches (query_lower : str) (e : entry) : bool :=
  str_contains query_lower (str_lower (Entry.get_title e))
  || str_contains query_lower (str_lower (Entry.get_content e)).

Fixpoint search_loop (query_lower : str) (limit : option Z)
    (entries results : list entry) : list entry :=
  match entries with
  | [] => results
  | e :: rest =>
      if entry_matches query_lower e then
        let results' := results ++ [e] in
        if limit_reached limit results' then results'
        else search_loop query_lower limit rest results'
      else search_loop query_lower limit rest results
  end.

(** [clean_and_deduplicate]: the loop over the valid entries. *)
Fixpoint unique_loop (seen : gset (str * str)) (entries : list entry)
  : list entry :=
  match entries with
  | [] => []
  | e :: rest =>
      let entry_hash := (str_lower (str_strip (Entry.get_title e)),
                         str_lower (str_strip (Entry.get_content e))) in
      if bool_decide (entry_hash ∈ seen) then unique_loop seen rest
      else e :: unique_loop ({[ entry_hash ]} ∪ seen) rest
  end.

(** [metadata.get("content_hashes", {}).get(category, [])] *)
Definition category_hashes (m : metadata_t) (category : str) : list str :=
  default [] (default ∅ (content_hashes m) !! category).

(** [any(similarity >= threshold for entry in entries)] *)
Definition similar_in (content : str) (threshold : QArith_base.Q)
    (entries : list entry) : bool :=
  existsb (fun e => similar_enough
                      (_compute_similarity content (Entry.get_content e))
                      threshold)
          entries.

(** What [append_to_knowledge_base] prints when it is done. *)
Record append_report : Type := mk_report {
  appended : nat;
  skipped_duplicates : nat
}.

(** The similarity of the specification: the Jaccard index of the sets of
    whitespace-delimited, lower-cased tokens, and 0 when either set is
    empty. *)
Definition tokens (text : str) : gset str :=
  list_to_set (map str_lower (str_split_ws text)).

Definition jaccard (text1 text2 : str) : QArith_base.Q :=
  if bool_decide (tokens text1 = ∅ ∨ tokens text2 = ∅)
  then QArith_base.Qmake 0 1
  else QArith_base.Qmake (Z.of_nat (size (tokens text1 ∩ tokens text2)))
                         (Pos.of_nat (size (tokens text1 ∪ tokens text2))).

Section WithFileSystem.

Context {FS : Type} `{!FileSystem FS}.

Local Open Scope result_scope.

(** [with open(path, 'r', encoding='utf-8') as f: return json.load(f)] *)
Definition read_json (fs : FS) (path : str) : result (list entry) :=
  match fs_read fs path with
  | None => Raise (OSError path)
  | Some text =>
      match Json.loads text with
      | Some entries => Ok entries
      | None => Raise JSONDecodeError
      end
  end.

(** [load_knowledge_base] *)
Definition load_knowledge_base (st : store FS) (category : str)
  : result (list entry) :=
  if fs_exists (disk st) (kb_file category)
  then read_json (disk st) (kb_file category)
  else Raise (FileNotFoundError (kb_file category)).

(** [save_knowledge_base] *)
Definition save_knowledge_base (st : store FS) (category : str)
    (entries : list entry) : result (store FS) :=
  match fs_write (disk st) (kb_file category) (Json.dumps entries) with
  | Some fs' => Ok (mk_store fs' (metadata st))
  | None => Raise (OSError (kb_file category))
  end.

Definition _save_metadata (st : store FS) (m : metadata_t) : store FS :=
  mk_store (disk st) m.

(** [search_knowledge_base] *)
Definition search_knowledge_base (st : store FS) (category query : str)
    (limit : option Z) : result (list entry) :=
  match load_knowledge_base st category with
  | Raise e => Raise e
  | Ok entries => Ok (search_loop (str_lower query) limit entries [])
  end.

(** [clean_and_deduplicate]; it returns the number of records it keeps. *)
Definition clean_and_deduplicate (st : store FS) (category : str)
  : result (store FS * nat) :=
  let* entries := load_knowledge_base st category in
  let valid_entries := filter (fun e => validate_entry e = true) entries in
  let unique_entries := unique_loop ∅ valid_entries in
  let removed_count := length entries - length unique_entries in
  if 0 <? removed_count
  then let* st' := save_knowledge_base st category unique_entries in
       Ok (st', length unique_entries)
  else Ok (st, length unique_entries).

(** The first lines of [append_to_knowledge_base]: the records of the file,
    none when there is no file. *)
Definition existing_entries (st : store FS) (category : str)
  : result (list entry) :=
  if fs_exists (disk st) (kb_file category)
  then read_json (disk st) (kb_file category)
  else Ok [].

(** The records of a partition as a reader sees them, none when loading
    fails. *)
Definition stored (st : store FS) (category : str) : list entry :=
  match load_knowledge_base st category with
  | Ok entries => entries
  | Raise _ => []
  end.

Section WithHash.

(** [hashlib.sha256(b).hexdigest()] of the encoded text. *)
Variable sha256_hexdigest : str → str.

(** [_compute_content_hash] *)
Definition _compute_content_hash (content : str) : str :=
  let normalized := str_join [sp] (str_split_ws (str_strip (str_lower content))) in
  sha256_hexdigest normalized.

(** [is_content_duplicate]: only [FileNotFoundError] is caught. *)
Definition is_content_duplicate (st : store FS) (content category : str)
    (similarity_threshold : QArith_base.Q) : result bool :=
  let content_hash := _compute_content_hash content in
  if bool_decide (content_hash ∈ category_hashes (metadata st) category)
  then Ok true
  else
    match load_knowledge_base st category with
    | Ok kb_entries => Ok (similar_in content similarity_threshold kb_entries)
    | Raise (FileNotFoundError _) => Ok false
    | Raise e => Raise e
    end.

(** [_record_content_hash] *)
Definition _record_content_hash (st : store FS) (content category : str)
  : store FS :=
  let content_hash := _compute_content_hash content in
  let hashes := default ∅ (content_hashes (metadata st)) in
  let of_category := default [] (hashes !! category) in
  if bool_decide (content_hash ∈ of_category)
  then st
  else _save_metadata st
         (mk_metadata (imported_documents (metadata st))
            (Some (<[category := of_category ++ [content_hash]]> hashes))).

(** The test on the entries already taken from the batch. *)
Definition duplicate_in_batch (content : str) (entries_to_add : list entry)
  : bool :=
  similar_in content default_threshold entries_to_add.

(** The loop of [append_to_knowledge_base]. *)
Fixpoint append_loop (category : str) (skip_duplicates : bool)
    (new_entries : list entry)
    (st : store FS) (entries_to_add : list entry) (skipped : nat)
  : result (store FS * list entry * nat) :=
  match new_entries with
  | [] => Ok (st, entries_to_add, skipped)
  | e :: rest =>
      let content := Entry.get_content e in
      let* duplicate :=
        if skip_duplicates
        then is_content_duplicate st content category default_threshold
        else Ok false in
      if duplicate
      then append_loop category skip_duplicates rest st entries_to_add (S skipped)
      else if skip_duplicates && duplicate_in_batch content entries_to_add
      then append_loop category skip_duplicates rest st entries_to_add (S skipped)
      else append_loop category skip_duplicates rest
             (_record_content_hash st content category)
             (entries_to_add ++ [e]) skipped
  end.

(** [append_to_knowledge_base] *)
Definition append_to_knowledge_base (st : store FS) (category : str)
    (new_entries : list entry) (skip_duplicates : bool)
  : result (store FS * append_report) :=
  let* existing_entries := existing_entries st category in
  let* filtered := append_loop category skip_duplicates new_entries st [] 0 in
  let '(st', entries_to_add, skipped) := filtered in
  let* st'' :=
    save_knowledge_base st' category (existing_entries ++ entries_to_add) in
  Ok (st'', mk_report (length entries_to_add) skipped).

(** ** The candidates an append keeps, told without the store

    A candidate is rejected as a duplicate when the fingerprint of its
    content is recorded for the partition (before the call, or for a
    candidate of the batch kept earlier), or when its content is similar
    enough to a record the partition held before the call or to a candidate
    kept earlier. *)
Definition fingerprint (e : entry) : str :=
  _compute_content_hash (Entry.get_content e).

Definition rejected_as_duplicate (hashes : list str) (before taken : list entry)
    (e : entry) : bool :=
  bool_decide (fingerprint e ∈ hashes ++ map fingerprint taken)
  || similar_in (Entry.get_content e) default_threshold before
  || similar_in (Entry.get_content e) default_threshold taken.

Fixpoint accepted_candidates (skip_duplicates : bool) (hashes : list str)
    (before taken new_entries : list entry) : list entry :=
  match new_entries with
  | [] => []
  | e :: rest =>
      if skip_duplicates && rejected_as_duplicate hashes before taken e
      then accepted_candidates skip_duplicates hashes before taken rest
      else e :: accepted_candidates skip_duplicates hashes before
                  (taken ++ [e]) rest
  end.

End WithHash.

End WithFileSystem.

(** The directory as [__init__] leaves it when it did not exist. *)
Definition initial_store : store flat_dir := mk_store ∅ initial_metadata.

End KnowledgeBaseManager.

(* ===================================================================== *)
(** * [tools/kb_pipeline.py]                                              *)
(* ===================================================================== *)

Module KbPipeline.

(** The knowledge-base directory as the pipeline sees it: the partition
    files by base name, and the files of its [backups/] sub-directory. *)
Record kb_dir : Type := mk_kb_dir {
  files : gmap str (list entry);
  backups : gmap str (list entry)
}.

(** [generate_keywords]: the pattern [\b[a-zA-Z]{4,}\b] matches the runs of
    word characters made of four or more letters a-z or A-Z. *)
Fixpoint first_occurrences (seen : gset str) (words : list str) : list str :=
  match words with
  | [] => []
  | w :: rest =>
      if bool_decide (w ∈ seen) then first_occurrences seen rest
      else w :: first_occurrences ({[ w ]} ∪ seen) rest
  end.

Definition generate_keywords (title : str) : list str :=
  let words := filter (fun w => (4 <=? length w) && forallb is_azAZ w = true)
                      (word_runs (str_lower title)) in
  first_occurrences ∅ words.

(** [normalize_category] *)
Definition normalize_category (cat : str) : str :=
  match cat with
  | [] => []
  | _ :: _ =>
      str_replace (py " ") (py "_")
        (str_replace (py "-") (py "_") (str_lower (str_strip cat)))
  end.

(** The body of the loop of [improve_file] on one entry, with whether it
    changed it. *)
Definition improve_entry (e : entry) : entry * bool :=
  let title := Entry.get_title e in
  let orig_cat := default [] (Entry.category e) in
  let cat := normalize_category orig_cat in
  let '(category', changed1) :=
    if bool_decide (cat = orig_cat) then (Entry.category e, false)
    else (Some cat, true) in
  let '(source', changed2) :=
    match Entry.source e with
    | None => (Some [], true)
    | Some src => (Some src, false)
    end in
  let '(keywords', changed3) :=
    match Entry.keywords e with
    | None => (Some (generate_keywords title), true)
    | Some kws => (Some kws, false)
    end in
  let '(content', changed4) :=
    match Entry.content e with
    | None => (None, false)
    | Some c =>
        let cleaned := str_join [nl] (map str_strip (str_splitlines c)) in
        if bool_decide (cleaned = c) then (Some c, false)
        else (Some cleaned, true)
    end in
  (Entry.mk (Entry.title e) content' category' source' keywords'
            (Entry.search_text e),
   changed1 || changed2 || changed3 || changed4).

(** [f"{base}.{ts()}.bak"] and its variants with a stage suffix; [now] is
    the value of [ts()]. *)
Definition backup_name (base now suffix : str) : str :=
  base ++ py "." ++ now ++ suffix ++ py ".bak".

(** [improve_file]; a missing file makes [open] fail, which the function
    reports as "no change". *)
Definition improve_file (d : kb_dir) (path now : str) : kb_dir * bool :=
  match files d !! path with
  | None => (d, false)
  | Some data =>
      let improved := map improve_entry data in
      let changed := existsb snd improved in
      if changed then
        (mk_kb_dir (<[path := map fst improved]> (files d))
                   (<[backup_name path now [] := data]> (backups d)),
         true)
      else (d, false)
  end.

(** [find_latest_backup_for]: the greatest name among the backups matching
    [{base}*.bak]. *)
Definition is_backup_of (base name : str) : bool :=
  str_startswith base name
  && str_endswith (py ".bak") (drop (length base) name).

Definition latest (names : list str) : option str :=
  fold_right (fun name best =>
                match best with
                | None => Some name
                | Some b => if str_ltb b name then Some name else Some b
                end) None names.

Definition find_latest_backup_for (d : kb_dir) (path : str) : option str :=
  latest (filter (fun name => is_backup_of path name = true)
                 (elements (dom (backups d)))).

(** The matches of [\b\d+[\-]\d+\b] in a text, left to right: a run of
    digits starting at a word boundary, a dash, a run of digits ending at a
    word boundary. *)
Inductive range_state : Type :=
| ROut                        (* after a non-word character, or at the start *)
| RWord                       (* inside a run of word characters: no match *)
| RFirst (a : str)            (* reading the first run of digits *)
| RDash (a : str)             (* read the first run and the dash *)
| RSecond (a b : str).        (* reading the second run of digits *)

Definition dash : ascii := "-"%char.

Definition range_step (st : range_state) (x : ascii)
  : range_state * list str :=
  match st with
  | ROut =>
      if isdigit x then (RFirst [x], [])
      else if isword x then (RWord, []) else (ROut, [])
  | RWord => if isword x then (RWord, []) else (ROut, [])
  | RFirst a =>
      if isdigit x then (RFirst (a ++ [x]), [])
      else if ascii_eqb x dash then (RDash a, [])
      else if isword x then (RWord, []) else (ROut, [])
  | RDash a =>
      if isdigit x then (RSecond a [x], [])
      else if isword x then (RWord, []) else (ROut, [])
  | RSecond a b =>
      if isdigit x then (RSecond a (b ++ [x]), [])
      else if isword x then (RWord, [])
      else (ROut, [a ++ [dash] ++ b])
  end.

Fixpoint find_ranges (st : range_state) (s : str) : list str :=
  match s with
  | [] => match st with RSecond a b => [a ++ [dash] ++ b] | _ => [] end
  | x :: s' =>
      let '(st', found) := range_step st x in
      found ++ find_ranges st' s'
  end.

(** The matches of [\b[\w]+-[\w]+\b]: a run of word characters, a dash, a
    run of word characters. *)
Inductive token_state : Type :=
| TOut
| TFirst (a : str)
| TDash (a : str)
| TSecond (a b : str).

Definition token_step (st : token_state) (x : ascii)
  : token_state * list str :=
  match st with
  | TOut => if isword x then (TFirst [x], []) else (TOut, [])
  | TFirst a =>
      if isword x then (TFirst (a ++ [x]), [])
      else if ascii_eqb x dash then (TDash a, []) else (TOut, [])
  | TDash a => if isword x then (TSecond a [x], []) else (TOut, [])
  | TSecond a b =>
      if isword x then (TSecond a (b ++ [x]), [])
      else (TOut, [a ++ [dash] ++ b])
  end.

Fixpoint find_tokens (st : token_state) (s : str) : list str :=
  match s with
  | [] => match st with TSecond a b => [a ++ [dash] ++ b] | _ => [] end
  | x :: s' =>
      let '(st', found) := token_step st x in
      found ++ find_tokens st' s'
  end.

(** [hyphen_tokens]: the set of the tokens, listed here in the order of their
    last occurrence (Python leaves the order of a set unspecified). *)
Definition hyphen_tokens (s : str) : list str := remove_dups (find_tokens TOut s).

(** [if alt in current: current = current.replace(alt, match); changed = True] *)
Definition restore_one (alt original : str) (acc : str * bool) : str * bool :=
  if str_contains alt acc.1 then (str_replace alt original acc.1, true) else acc.

(** [replace_splits].  A capitalised candidate with a character beyond code
    255 is in no modelled text, so it is left out of the candidates. *)
Definition restore_range (acc : str * bool) (m : str) : str * bool :=
  let acc := restore_one (str_replace [dash] (py ". ") m) m acc in
  restore_one (str_replace [dash] (py " - ") m) m acc.

Definition restore_token (acc : str * bool) (token : str) : str * bool :=
  match str_split [dash] token with
  | [a; b] =>
      let capitalized :=
        match str_capitalize b with
        | Some b' => [a ++ py ". " ++ b']
        | None => []
        end in
      let candidates := [a ++ py ". " ++ b] ++ capitalized
                        ++ [a ++ py " " ++ b; a ++ py " . " ++ b] in
      fold_left (fun acc c => restore_one c token acc) candidates acc
  | _ => acc
  end.

Definition replace_splits (current backup : str) : str * bool :=
  let acc := fold_left restore_range (find_ranges ROut backup) (current, false) in
  fold_left restore_token (hyphen_tokens backup) acc.

(** [bak_map.get(title)]: the last entry of the backup with that title. *)
Definition bak_lookup (bak : list entry) (title : str) : option entry :=
  head (filter (fun e => Entry.get_title e = title) (rev bak)).

(** An entry with no key at all is the empty dictionary, which is falsy. *)
Definition entry_is_empty (e : entry) : bool :=
  bool_decide (e = Entry.mk None None None None None None).

(** The body of the loop of [restore_file] on one entry. *)
Definition restore_entry (bak : list entry) (e : entry) : entry * bool :=
  match bak_lookup bak (Entry.get_title e) with
  | None => (e, false)
  | Some bak_entry =>
      if entry_is_empty bak_entry then (e, false)
      else
        let '(new_content, changed) :=
          replace_splits (Entry.get_content e) (Entry.get_content bak_entry) in
        if changed
        then (Entry.mk (Entry.title e) (Some new_content) (Entry.category e)
                       (Entry.source e) (Entry.keywords e) (Entry.search_text e),
              true)
        else (e, false)
  end.

(** [restore_file] *)
Definition restore_file (d : kb_dir) (path : str) : kb_dir * bool :=
  match find_latest_backup_for d path with
  | None => (d, false)
  | Some backup =>
      match files d !! path, backups d !! backup with
      | Some cur, Some bak =>
          let restored := map (restore_entry bak) cur in
          let changed_any := existsb snd restored in
          if changed_any
          then (mk_kb_dir (<[path := map fst restored]> (files d)) (backups d),
                true)
          else (d, false)
      | _, _ => (d, false)
      end
  end.

End KbPipeline.

(* ===================================================================== *)
(** * Inputs of the examples                                              *)
(* ===================================================================== *)

(** A chunk whose title is the empty string, and a well-formed one. *)
Definition untitled_chunk : entry :=
  Entry.mk (Some []) (Some (py "Wear a hard hat on site."))
           (Some (py "ppe")) None None None.

Definition hard_hat_chunk : entry :=
  Entry.mk (Some (py "Head Protection")) (Some (py "Wear a hard hat on site."))
           (Some (py "ppe")) None None None.

Definition harness_sentence : str :=
  py "Always wear a harness when working above six feet.".

Definition copyright_text : str :=
  str_join blank_line [py "COPYRIGHT NOTICE"; harness_sentence].

Definition fall_protection_text : str :=
  str_join blank_line [py "FALL PROTECTION"; harness_sentence].

Definition ladder_sentence : str :=
  py "Inspect every ladder before each use on the site.".

Definition guardrail_sentence : str :=
  py "Keep guardrails on all open sides of the platform.".

(** [n] copies of a sentence separated by single spaces: one paragraph. *)
Definition sentences (n : nat) (sentence : str) : str :=
  str_join [sp] (repeat sentence n).

(** One paragraph of 2039 characters. *)
Definition long_paragraph : str := sentences 40 harness_sentence.

(** Three different paragraphs of 917, 899 and 917 characters. *)
Definition three_long_paragraphs : str :=
  str_join blank_line
    [sentences 18 harness_sentence; sentences 18 ladder_sentence;
     sentences 18 guardrail_sentence].

(** Eight list items of 256 characters each. *)
Definition list_item : str := py "- " ++ sentences 5 harness_sentence.

Definition eight_list_items : str := str_join blank_line (repeat list_item 8).

(** A paragraph wrapped over two lines, then a one-line paragraph. *)
Definition wrapped_text : str :=
  str_join blank_line
    [py "Check harness" ++ [nl] ++ py "webbing."; harness_sentence].

Definition contents_then_section : list str :=
  [py "TABLE OF CONTENTS"; py "FALL PROTECTION"; harness_sentence;
   harness_sentence].

Definition ladders_entry (content : str) : entry :=
  Entry.mk (Some (py "Ladders")) (Some content) (Some (py "ppe")) None None None.

(** A partition whose content lost a numeric range to an earlier stage, and
    the backup taken before that stage. *)
Definition damaged_dir : KbPipeline.kb_dir :=
  KbPipeline.mk_kb_dir
    {[ py "fall_base.json" := [ladders_entry (py "Keep 10. 15 feet away.")] ]}
    {[ py "fall_base.json.20240101T000000Z.fmt.bak"
       := [ladders_entry (py "Keep 10-15 feet away.")] ]}.

(** The partition and the states of the store examples: the fresh store
    after a save of two records, and the states of two appends of the same
    chunk, with the identity for the hash function. *)
Definition fall : str := py "fall".

Definition two_chunks : list entry := [hard_hat_chunk; untitled_chunk].

Definition saved_store : KnowledgeBaseManager.store flat_dir :=
  KnowledgeBaseManager.mk_store
    {[ KnowledgeBaseManager.kb_file fall := Json.dumps two_chunks ]}
    KnowledgeBaseManager.initial_metadata.

Definition appended_store (entries : list entry)
  : KnowledgeBaseManager.store flat_dir :=
  KnowledgeBaseManager.mk_store
    {[ KnowledgeBaseManager.kb_file fall := Json.dumps entries ]}
    (KnowledgeBaseManager.mk_metadata ∅
       (Some {[ fall := [py "wear a hard hat on site."] ]})).

(* ===================================================================== *)
(** * Tokens and similarity                                               *)
(* ===================================================================== *)

Section Tokens.
Import KnowledgeBaseManager.

Lemma isspace_lower_c (c : ascii) : isspace (lower_c c) = isspace c.
Proof. destruct c as [[] [] [] [] [] [] [] []]; reflexivity. Qed.

Lemma cons_head_map (f : ascii → ascii) (c : ascii) (ps : list str) :
  ps ≠ [] → map (map f) (cons_head c ps) = cons_head (f c) (map (map f) ps).
Proof. by destruct ps. Qed.

Lemma str_split_ws_nonempty (c : ascii) (s : str) :
  isspace c = false → str_split_ws (c :: s) ≠ [].
Proof.
  intros Hc. simpl. rewrite Hc.
  destruct s as [|d s]; [done|].
  destruct (isspace d); [done|].
  by destruct (str_split_ws (d :: s)).
Qed.

(** Lower-casing commutes with splitting on whitespace. *)
Lemma str_split_ws_lower (s : str) :
  str_split_ws (str_lower s) = map str_lower (str_split_ws s).
Proof.
  induction s as [|c s IH]; [done|].
  change (str_lower (c :: s)) with (lower_c c :: str_lower s).
  cbn [str_split_ws]. rewrite isspace_lower_c.
  destruct (isspace c); [exact IH|].
  destruct s as [|d s]; [done|].
  rewrite IH.
  change (str_lower (d :: s)) with (lower_c d :: str_lower s).
  cbv iota. rewrite isspace_lower_c.
  destruct (isspace d) eqn:Hd; [done|].
  symmetry. apply (cons_head_map lower_c).
  by apply str_split_ws_nonempty.
Qed.

Lemma str_split_ws_spaces (t : str) :
  forallb isspace t = true → str_split_ws t = [].
Proof.
  induction t as [|c t IH]; [done|]; simpl.
  intros [Hc Ht]%andb_true_iff. rewrite Hc. by apply IH.
Qed.

Lemma str_split_ws_app_spaces (s t : str) :
  forallb isspace t = true → str_split_ws (s ++ t) = str_split_ws s.
Proof.
  intros Ht. induction s as [|c s IH]; [by apply str_split_ws_spaces|].
  cbn [app str_split_ws].
  destruct (isspace c); [exact IH|].
  destruct s as [|d s].
  - simpl. destruct t as [|d t]; [done|].
    simpl in Ht. apply andb_true_iff in Ht as [Hd Ht]. rewrite Hd.
    simpl. rewrite Hd. by rewrite str_split_ws_spaces.
  - cbn [app] in *. by rewrite IH.
Qed.

Lemma drop_while_split {A} (p : A → bool) (l : list A) :
  ∃ t, l = t ++ drop_while p l ∧ forallb p t = true.
Proof.
  induction l as [|x l [t [Hl Ht]]]; [by exists []|]; simpl.
  destruct (p x) eqn:Hx.
  - exists (x :: t). simpl. rewrite Hx, Ht. by rewrite <- Hl.
  - by exists [].
Qed.

Lemma str_split_ws_lstrip (s : str) :
  str_split_ws (str_lstrip s) = str_split_ws s.
Proof.
  unfold str_lstrip. induction s as [|c s IH]; [done|]; simpl.
  destruct (isspace c) eqn:Hc; [exact IH|]. simpl. by rewrite Hc.
Qed.

Lemma forallb_rev {A} (p : A → bool) (l : list A) :
  forallb p (rev l) = forallb p l.
Proof.
  induction l as [|x l IH]; [done|]; simpl.
  rewrite forallb_app, IH; simpl. rewrite andb_true_r. apply andb_comm.
Qed.

Lemma str_rstrip_split (s : str) :
  ∃ t, s = str_rstrip s ++ t ∧ forallb isspace t = true.
Proof.
  unfold str_rstrip.
  destruct (drop_while_split isspace (rev s)) as [t [Hs Ht]].
  exists (rev t). split; [|by rewrite forallb_rev].
  rewrite <- rev_app_distr, <- Hs. by rewrite rev_involutive.
Qed.

Lemma str_split_ws_rstrip (s : str) :
  str_split_ws (str_rstrip s) = str_split_ws s.
Proof.
  destruct (str_rstrip_split s) as [t [Hs Ht]].
  rewrite Hs at 2. by rewrite str_split_ws_app_spaces.
Qed.

(** Stripping before [split()] changes nothing. *)
Lemma str_split_ws_strip (s : str) :
  str_split_ws (str_strip s) = str_split_ws s.
Proof.
  unfold str_strip. by rewrite str_split_ws_rstrip, str_split_ws_lstrip.
Qed.

(** The word set the code builds is the token set of the specification. *)
Lemma word_set_tokens (text : str) : word_set text = tokens text.
Proof.
  unfold word_set, tokens.
  by rewrite str_split_ws_strip, str_split_ws_lower.
Qed.

Lemma Zpos_of_nat (n : nat) : n ≠ 0 → Z.pos (Pos.of_nat n) = Z.of_nat n.
Proof. lia. Qed.

Lemma tokens_union_size (a b : str) :
  ¬ (tokens a = ∅ ∨ tokens b = ∅) → size (tokens a ∪ tokens b) ≠ 0.
Proof.
  intros Hne Hsize. apply size_empty_iff, leibniz_equiv in Hsize.
  apply empty_union_L in Hsize as [Ha _]. apply Hne. by left.
Qed.

Lemma jaccard_bounds (text1 text2 : str) :
  QArith_base.Qle (QArith_base.Qmake 0 1) (jaccard text1 text2)
  ∧ QArith_base.Qle (jaccard text1 text2) (QArith_base.Qmake 1 1).
Proof.
  unfold jaccard. case_bool_decide as Hempty.
  - split; unfold QArith_base.Qle; simpl; lia.
  - pose proof (tokens_union_size _ _ Hempty) as Hne.
    assert (Hle : size (tokens text1 ∩ tokens text2)
                  ≤ size (tokens text1 ∪ tokens text2)).
    { apply subseteq_size. etrans; [apply intersection_subseteq_l|].
      apply union_subseteq_l. }
    split; unfold QArith_base.Qle; simpl; rewrite ?Zpos_of_nat by done; lia.
Qed.

(** C8. [_compute_similarity] is the Jaccard similarity of the two sets of
    whitespace-delimited lower-cased tokens (size of the intersection over
    size of the union), lies between 0 and 1, and is 0 as soon as one of the
    token sets is empty. *)
Theorem similarity_is_jaccard (a b : str) :
  _compute_similarity a b = jaccard a b
  ∧ QArith_base.Qle (QArith_base.Qmake 0 1) (_compute_similarity a b)
  ∧ QArith_base.Qle (_compute_similarity a b) (QArith_base.Qmake 1 1)
  ∧ (tokens a = ∅ ∨ tokens b = ∅ →
     _compute_similarity a b = QArith_base.Qmake 0 1).
Proof.
  assert (Heq : _compute_similarity a b = jaccard a b).
  { unfold _compute_similarity, jaccard. rewrite !word_set_tokens.
    destruct (decide (tokens a = ∅)) as [Ha|Ha].
    { rewrite (bool_decide_eq_true_2 _ Ha). simpl.
      rewrite bool_decide_eq_true_2; [done|by left]. }
    destruct (decide (tokens b = ∅)) as [Hb|Hb].
    { rewrite (bool_decide_eq_true_2 _ Hb), orb_true_r.
      rewrite bool_decide_eq_true_2; [done|by right]. }
    rewrite (bool_decide_eq_false_2 _ Ha), (bool_decide_eq_false_2 _ Hb).
    assert (Hempty : ¬ (tokens a = ∅ ∨ tokens b = ∅)) by tauto.
    rewrite (bool_decide_eq_false_2 _ Hempty). simpl.
    pose proof (tokens_union_size _ _ Hempty) as Hne.
    destruct (Nat.ltb_spec 0 (size (tokens a ∪ tokens b))); [done|lia]. }
  split; [exact Heq|]. rewrite Heq.
  split; [apply jaccard_bounds|]. split; [apply jaccard_bounds|].
  intros Hempty. unfold jaccard. by rewrite bool_decide_eq_true_2.
Qed.

End Tokens.

(* ===================================================================== *)
(** * Facts about [strip], [split] and [join]                             *)
(* ===================================================================== *)

Section TextFacts.

Lemma ascii_eqb_eq (a b : ascii) : ascii_eqb a b = true ↔ a = b.
Proof. apply Ascii.eqb_eq. Qed.

Lemma ascii_eqb_refl (a : ascii) : ascii_eqb a a = true.
Proof. by apply ascii_eqb_eq. Qed.

Lemma isspace_nl : isspace nl = true.
Proof. reflexivity. Qed.

Lemma str_startswith_app (p s t : str) :
  str_startswith p s = true → str_startswith p (s ++ t) = true.
Proof.
  revert s. induction p as [|a p IH]; intros [|b s]; simpl; try done.
  intros [-> Hp]%andb_true_iff. simpl. by apply IH.
Qed.

Lemma str_contains_app_l (sub s t : str) :
  str_contains sub (s ++ t) = false → str_contains sub s = false.
Proof.
  induction s as [|c s IH].
  - destruct sub; [|done]. by destruct t.
  - cbn [app str_contains].
    intros [Hsw Hc]%orb_false_iff. apply orb_false_iff. split; [|by apply IH].
    destruct (str_startswith sub (c :: s)) eqn:Hs; [|done].
    pose proof (str_startswith_app _ (c :: s) t Hs) as Hst.
    cbn [app] in Hst. congruence.
Qed.

Lemma str_contains_app_r (sub s t : str) :
  str_contains sub (s ++ t) = false → str_contains sub t = false.
Proof.
  induction s as [|c s IH]; [done|].
  cbn [app str_contains]. intros [_ Hc]%orb_false_iff. by apply IH.
Qed.

(** ** [strip] *)

Lemma str_lstrip_split (s : str) :
  ∃ t, s = t ++ str_lstrip s ∧ forallb isspace t = true.
Proof. apply drop_while_split. Qed.

Lemma str_strip_split (s : str) :
  ∃ t1 t2, s = t1 ++ str_strip s ++ t2.
Proof.
  destruct (str_lstrip_split s) as [t1 [H1 _]].
  destruct (str_rstrip_split (str_lstrip s)) as [t2 [H2 _]].
  exists t1, t2. unfold str_strip. by rewrite <- H2.
Qed.

Lemma str_strip_length (s : str) : length (str_strip s) ≤ length s.
Proof.
  destruct (str_strip_split s) as [t1 [t2 Hs]].
  rewrite Hs at 2. rewrite !length_app. lia.
Qed.

Lemma starts_clean_drop_while (s : str) : starts_clean (drop_while isspace s) = true.
Proof.
  induction s as [|c s IH]; [done|]; simpl.
  destruct (isspace c) eqn:Hc; [done|]. simpl. by rewrite Hc.
Qed.

Lemma drop_while_clean (s : str) :
  starts_clean s = true → drop_while isspace s = s.
Proof. destruct s as [|c s]; [done|]; simpl. by intros ->%negb_true_iff. Qed.

Lemma str_lstrip_clean (s : str) : starts_clean s = true → str_lstrip s = s.
Proof. apply drop_while_clean. Qed.

Lemma str_rstrip_clean (s : str) : ends_clean s = true → str_rstrip s = s.
Proof.
  unfold ends_clean, str_rstrip. intros H.
  by rewrite drop_while_clean, rev_involutive.
Qed.

Lemma str_strip_clean (s : str) :
  starts_clean s = true → ends_clean s = true → str_strip s = s.
Proof.
  intros H1 H2. unfold str_strip. by rewrite str_lstrip_clean, str_rstrip_clean.
Qed.

Lemma ends_clean_rstrip (s : str) : ends_clean (str_rstrip s) = true.
Proof.
  unfold ends_clean, str_rstrip. rewrite rev_involutive.
  apply starts_clean_drop_while.
Qed.

Lemma starts_clean_prefix (s t : str) :
  starts_clean (s ++ t) = true → starts_clean s = true.
Proof. by destruct s. Qed.

Lemma starts_clean_strip (s : str) : starts_clean (str_strip s) = true.
Proof.
  unfold str_strip.
  destruct (str_rstrip_split (str_lstrip s)) as [t [Hs _]].
  apply (starts_clean_prefix _ t). rewrite <- Hs.
  apply starts_clean_drop_while.
Qed.

Lemma ends_clean_strip (s : str) : ends_clean (str_strip s) = true.
Proof. apply ends_clean_rstrip. Qed.

Lemma str_strip_idemp (s : str) : str_strip (str_strip s) = str_strip s.
Proof. apply str_strip_clean; [apply starts_clean_strip | apply ends_clean_strip]. Qed.

Lemma no_blank_line_strip (s : str) : no_blank_line s → no_blank_line (str_strip s).
Proof.
  unfold no_blank_line. intros H.
  destruct (str_strip_split s) as [t1 [t2 Hs]]. rewrite Hs in H.
  by apply str_contains_app_r, str_contains_app_l in H.
Qed.

Lemma ends_clean_cons (c : ascii) (s : str) :
  s ≠ [] → ends_clean (c :: s) = ends_clean s.
Proof.
  unfold ends_clean. intros Hs. simpl.
  destruct (rev s) as [|d r] eqn:Hr; [|done].
  apply (f_equal (@rev ascii)) in Hr. rewrite rev_involutive in Hr. done.
Qed.

Lemma ends_clean_app (s t : str) :
  t ≠ [] → ends_clean (s ++ t) = ends_clean t.
Proof.
  intros Ht. induction s as [|c s IH]; [done|].
  cbn [app]. rewrite ends_clean_cons; [done|]. by destruct s, t.
Qed.

End TextFacts.

Section SplitJoin.

Lemma split_aux_cons_false (sep : str) (c : ascii) (s : str) :
  str_startswith sep (c :: s) = false →
  split_aux sep 0 (c :: s) = cons_head c (split_aux sep 0 s).
Proof.
  intros H.
  change (split_aux sep 0 (c :: s))
    with (if str_startswith sep (c :: s)
          then [] :: split_aux sep (length sep - 1) s
          else cons_head c (split_aux sep 0 s)).
  by rewrite H.
Qed.

Lemma split_aux_cons_true (sep : str) (c : ascii) (s : str) :
  str_startswith sep (c :: s) = true →
  split_aux sep 0 (c :: s) = [] :: split_aux sep (length sep - 1) s.
Proof.
  intros H.
  change (split_aux sep 0 (c :: s))
    with (if str_startswith sep (c :: s)
          then [] :: split_aux sep (length sep - 1) s
          else cons_head c (split_aux sep 0 s)).
  by rewrite H.
Qed.

Lemma startswith_blank_line (c : ascii) (s : str) :
  str_startswith blank_line (c :: s)
  = ascii_eqb nl c && match s with d :: _ => ascii_eqb nl d | [] => false end.
Proof. destruct s; simpl; by rewrite ?andb_true_r. Qed.

Lemma no_blank_line_cons (c : ascii) (s : str) :
  no_blank_line (c :: s) ↔
  str_startswith blank_line (c :: s) = false ∧ no_blank_line s.
Proof. unfold no_blank_line. cbn [str_contains]. apply orb_false_iff. Qed.

Lemma no_blank_line_nil : no_blank_line [].
Proof. reflexivity. Qed.

(** A text free of blank lines is one paragraph. *)
Lemma split_blank_single (p : str) :
  no_blank_line p → str_split blank_line p = [p].
Proof.
  unfold str_split. induction p as [|c p IH]; [done|].
  intros [Hsw Hp]%no_blank_line_cons.
  rewrite split_aux_cons_false by done. by rewrite IH.
Qed.

(** Splitting finds the separator that follows a paragraph free of blank
    lines and not ending in a newline. *)
Lemma split_blank_app (p rest : str) :
  no_blank_line p → ends_clean p = true →
  str_split blank_line (p ++ blank_line ++ rest) = p :: str_split blank_line rest.
Proof.
  unfold str_split. induction p as [|c p IH]; intros Hnb Hend.
  - cbn [app blank_line]. by rewrite split_aux_cons_true.
  - apply no_blank_line_cons in Hnb as [Hsw Hp].
    cbn [app]. rewrite split_aux_cons_false.
    + rewrite IH; [done|done|].
      destruct p as [|d p]; [done|]. by rewrite ends_clean_cons in Hend.
    + rewrite startswith_blank_line in *.
      destruct (ascii_eqb nl c) eqn:Hc; [|done].
      destruct p as [|d p]; [|exact Hsw].
      apply ascii_eqb_eq in Hc. subst c. done.
Qed.

Lemma str_join_cons (sep p : str) (ps : list str) :
  ps ≠ [] → str_join sep (p :: ps) = p ++ sep ++ str_join sep ps.
Proof. by destruct ps. Qed.

(** [split] undoes [join] on paragraphs free of blank lines that do not end
    in white space. *)
Lemma split_join_blank (ps : list str) :
  ps ≠ [] →
  Forall (fun p => no_blank_line p ∧ ends_clean p = true) ps →
  str_split blank_line (str_join blank_line ps) = ps.
Proof.
  induction ps as [|p ps IH]; [done|]. intros _ Hall.
  apply Forall_cons in Hall as [[Hnb Hend] Hall].
  destruct ps as [|q ps].
  - by apply split_blank_single.
  - rewrite str_join_cons by done. rewrite split_blank_app by done.
    by rewrite IH.
Qed.

(** The first piece of a split is a prefix: it is empty or starts like the
    text. *)
Lemma split_aux_head (s : str) :
  ∃ p ps, split_aux blank_line 0 s = p :: ps ∧ (p = [] ∨ head p = head s).
Proof.
  destruct s as [|c s]; [by exists [], []; auto|].
  destruct (str_startswith blank_line (c :: s)) eqn:Hsw.
  - rewrite split_aux_cons_true by done. eauto.
  - rewrite split_aux_cons_false by done.
    destruct (split_aux blank_line 0 s) as [|p ps]; simpl; eauto.
Qed.

Lemma split_aux_pieces (skip : nat) (s : str) :
  Forall no_blank_line (split_aux blank_line skip s).
Proof.
  revert skip. induction s as [|c s IH]; intros skip.
  - repeat constructor.
  - destruct skip as [|k]; [|apply IH].
    destruct (str_startswith blank_line (c :: s)) eqn:Hsw.
    + rewrite split_aux_cons_true by done.
      constructor; [apply no_blank_line_nil | apply IH].
    + rewrite split_aux_cons_false by done.
      destruct (split_aux_head s) as [p [ps [Hs Hp]]].
      specialize (IH 0). rewrite Hs in *. simpl.
      apply Forall_cons in IH as [Hnb Hps].
      constructor; [|done].
      apply no_blank_line_cons. split; [|done].
      rewrite startswith_blank_line in *.
      destruct Hp as [->|Hp]; [by rewrite andb_false_r|].
      destruct p as [|d p]; [by rewrite andb_false_r|].
      destruct s as [|d' s]; [done|].
      simpl in Hp. injection Hp as ->. exact Hsw.
Qed.

(** No paragraph obtained by splitting at blank lines contains one. *)
Lemma split_blank_pieces (s : str) :
  Forall no_blank_line (str_split blank_line s).
Proof. apply split_aux_pieces. Qed.

End SplitJoin.

(* ===================================================================== *)
(** * Decoding what was encoded                                           *)
(* ===================================================================== *)

Section JsonRoundTrip.
Import Json.

Local Arguments Nat.mul : simpl never.

(** Reading back an escaped character gives the character. *)
Lemma string_body_escape (c : ascii) (tail : str) :
  string_body (escape c ++ tail) = push c (string_body tail).
Proof. destruct c as [[] [] [] [] [] [] [] []]; reflexivity. Qed.

Lemma string_body_dump (s rest : str) :
  string_body (concat (map escape s) ++ quote :: rest) = Some (s, rest).
Proof.
  induction s as [|c s IH]; [reflexivity|].
  cbn [map concat]. rewrite <- app_assoc, string_body_escape, IH. reflexivity.
Qed.

Lemma parse_string_dump (s rest : str) :
  parse_string (dump_string s ++ rest) = Some (s, rest).
Proof.
  unfold dump_string. cbn [app parse_string].
  change (is_code 34 quote) with true. cbv iota.
  rewrite <- app_assoc. apply string_body_dump.
Qed.

Lemma skip_ws_indent (n : nat) (s : str) : skip_ws (indent n ++ s) = skip_ws s.
Proof. induction n as [|n IH]; [done|]. exact IH. Qed.

Lemma skip_ws_nl (s : str) : skip_ws (nl :: s) = skip_ws s.
Proof. reflexivity. Qed.

Lemma skip_ws_visible (c : ascii) (s : str) :
  is_ws c = false → skip_ws (c :: s) = c :: s.
Proof. intros Hc. unfold skip_ws. simpl. by rewrite Hc. Qed.

(** ** Containers *)

Section Container.
Context {A : Type} (item : str → option (A * str)) (dump : A → str).
Context (open_c close_c : ascii).

(** What [item] reads back, and how a written item starts. *)
Hypothesis item_dump : ∀ x rest, item (dump x ++ rest) = Some (x, rest).
Hypothesis dump_head :
  ∀ x, ∃ d t, dump x = d :: t ∧ is_ws d = false ∧ ascii_eqb d close_c = false.
Hypothesis close_visible : is_ws close_c = false.
Hypothesis close_not_comma : is_code 44 close_c = false.

Lemma items_text_one (k : nat) (x : A) (closing : str) :
  items_text dump k [x] closing = dump x ++ closing.
Proof. reflexivity. Qed.

Lemma items_text_more (k : nat) (x y : A) (xs : list A) (closing : str) :
  items_text dump k (x :: y :: xs) closing
  = dump x ++ py "," ++ nl :: indent k ++ items_text dump k (y :: xs) closing.
Proof. reflexivity. Qed.

Lemma items_text_head (k : nat) (x : A) (xs : list A) (closing : str) :
  ∃ d t, items_text dump k (x :: xs) closing = d :: t
         ∧ is_ws d = false ∧ ascii_eqb d close_c = false.
Proof.
  destruct (dump_head x) as (d & t & Hx & Hd & Hc).
  destruct xs as [|y xs].
  - rewrite items_text_one, Hx. by eexists _, _.
  - rewrite items_text_more, Hx. by eexists _, _.
Qed.

Lemma join_items_text (k : nat) (xs : list A) (closing : str) :
  xs ≠ [] →
  str_join (py "," ++ [nl]) (map (fun x => indent k ++ dump x) xs) ++ closing
  = indent k ++ items_text dump k xs closing.
Proof.
  induction xs as [|x xs IH]; [done|]. intros _.
  destruct xs as [|y xs].
  - rewrite items_text_one. cbn [map str_join]. by rewrite <- app_assoc.
  - specialize (IH ltac:(done)).
    change (map ?f (x :: y :: xs)) with (f x :: map f (y :: xs)).
    rewrite str_join_cons by done.
    rewrite items_text_more, <- IH. by rewrite <- !app_assoc.
Qed.

Lemma items_text_length (k : nat) (xs : list A) (closing : str) :
  length xs ≤ length (items_text dump k xs closing).
Proof.
  induction xs as [|x xs IH]; [simpl; lia|].
  destruct (dump_head x) as (d & t & Hx & _).
  destruct xs as [|y xs].
  - rewrite items_text_one, Hx, length_app. cbn [length]. lia.
  - rewrite items_text_more, Hx. set (L := items_text dump k (y :: xs) closing) in *.
    rewrite !length_app. cbn [length] in *. rewrite length_app. lia.
Qed.

Lemma parse_items_text (k k' fuel : nat) (xs : list A) (rest : str) :
  xs ≠ [] → length xs ≤ fuel →
  parse_items item close_c fuel
    (items_text dump k xs (nl :: indent k' ++ close_c :: rest))
  = Some (xs, rest).
Proof.
  revert fuel. induction xs as [|x xs IH]; [done|]. intros fuel _ Hfuel.
  destruct fuel as [|fuel]; [simpl in Hfuel; lia|].
  destruct xs as [|y xs].
  - rewrite items_text_one. cbn [parse_items]. rewrite item_dump.
    rewrite skip_ws_nl, skip_ws_indent, skip_ws_visible by done.
    by rewrite ascii_eqb_refl.
  - rewrite items_text_more. cbn [parse_items]. rewrite item_dump.
    cbn [py list_ascii_of_string app].
    rewrite skip_ws_visible by reflexivity.
    replace (ascii_eqb "," close_c) with false.
    2:{ symmetry. destruct (ascii_eqb "," close_c) eqn:Heq; [|done].
        apply ascii_eqb_eq in Heq. subst close_c. done. }
    change (is_code 44 ",") with true. cbv iota.
    rewrite skip_ws_nl, skip_ws_indent.
    destruct (items_text_head k y xs (nl :: indent k' ++ close_c :: rest))
      as (d & t & Hy & Hd & _).
    rewrite Hy, skip_ws_visible, <- Hy by done.
    rewrite IH; [done|done|]. cbn [length] in *. lia.
Qed.

(** A written container is read back with its items, in order. *)
Lemma parse_container_dump (level : nat) (xs : list A) (rest : str) :
  parse_container open_c close_c item
    (dump_items open_c close_c level (map dump xs) ++ rest)
  = Some (xs, rest).
Proof.
  unfold parse_container, dump_items.
  destruct xs as [|x xs].
  - cbn [map app]. rewrite ascii_eqb_refl.
    rewrite skip_ws_visible by done. by rewrite ascii_eqb_refl.
  - change (map dump (x :: xs)) with (dump x :: map dump xs).
    cbn [app]. rewrite ascii_eqb_refl.
    change (dump x :: map dump xs) with (map dump (x :: xs)).
    rewrite map_map, <- app_assoc.
    rewrite (join_items_text (2 * S level) (x :: xs)) by done.
    rewrite skip_ws_nl, skip_ws_indent.
    replace ((nl :: indent (2 * level) ++ [close_c]) ++ rest)
      with (nl :: indent (2 * level) ++ close_c :: rest)
      by (cbn [app]; by rewrite <- app_assoc).
    set (closing := nl :: indent (2 * level) ++ close_c :: rest).
    destruct (items_text_head (2 * S level) x xs closing)
      as (d & t & Hx & Hd & Hclose).
    rewrite Hx, skip_ws_visible, Hclose, <- Hx by done.
    subst closing. apply parse_items_text; [done|].
    pose proof (items_text_length (2 * S level) (x :: xs)
                  (nl :: indent (2 * level) ++ close_c :: rest)).
    cbn [length] in *. rewrite length_app. lia.
Qed.

End Container.

(** ** Values, members, records *)

Lemma dump_string_head (s : str) :
  ∃ t, dump_string s = quote :: t.
Proof. by eexists. Qed.

Lemma parse_string_list_dump (level : nat) (l : list str) (rest : str) :
  parse_container "["%char "]"%char parse_string
    (dump_string_list level l ++ rest)
  = Some (l, rest).
Proof.
  unfold dump_string_list.
  apply parse_container_dump; try done.
  - apply parse_string_dump.
  - intros x. by exists quote, (concat (map escape x) ++ [quote]).
Qed.

Lemma parse_value_dump (level : nat) (v : value) (rest : str) :
  parse_value (dump_value level v ++ rest) = Some (v, rest).
Proof.
  destruct v as [s|l]; unfold parse_value.
  - pose proof (parse_string_dump s rest) as Hs.
    unfold dump_value, dump_string in *. cbn [app] in *.
    change (is_code 34 quote) with true. cbv iota.
    by rewrite Hs.
  - pose proof (parse_string_list_dump level l rest) as Hl.
    unfold dump_value. destruct (dump_string_list level l ++ rest) as [|c t] eqn:Ht.
    + by destruct l.
    + assert (c = "["%char) as -> by (by destruct l; injection Ht as <- _).
      change (is_code 34 "[") with false. cbv iota. by rewrite Hl.
Qed.

Lemma dump_value_head (level : nat) (v : value) :
  ∃ d t, dump_value level v = d :: t ∧ is_ws d = false.
Proof.
  destruct v as [s|l].
  - by exists quote, (concat (map escape s) ++ [quote]).
  - destruct l; by eexists _, _.
Qed.

Lemma parse_member_dump (level : nat) (kv : str * value) (rest : str) :
  parse_member (dump_member level kv ++ rest) = Some (kv, rest).
Proof.
  destruct kv as [key v]. unfold parse_member, dump_member. cbn [fst snd].
  rewrite <- !app_assoc, parse_string_dump.
  cbn [py list_ascii_of_string app].
  rewrite skip_ws_visible by reflexivity.
  change (is_code 58 ":") with true. cbv iota.
  destruct (dump_value_head level v) as (d & t & Hv & Hd).
  change (skip_ws (" "%char :: ?x)) with (skip_ws x).
  replace (skip_ws (dump_value level v ++ rest)) with (dump_value level v ++ rest).
  - by rewrite parse_value_dump.
  - rewrite Hv. cbn [app]. by rewrite skip_ws_visible.
Qed.

Lemma members_pairs (level : nat) (e : entry) :
  members level e = map (dump_member (S level)) (pairs e).
Proof.
  destruct e as [[t|] [c|] [g|] [s|] [k|] [x|]]; reflexivity.
Qed.

Lemma build_entry_pairs (e : entry) :
  build_entry empty_entry (pairs e) = Some e.
Proof.
  destruct e as [[t|] [c|] [g|] [s|] [k|] [x|]]; reflexivity.
Qed.

Lemma parse_entry_dump (level : nat) (e : entry) (rest : str) :
  parse_entry (dump_entry level e ++ rest) = Some (e, rest).
Proof.
  unfold parse_entry, dump_entry. rewrite members_pairs.
  rewrite parse_container_dump; try done.
  - by rewrite build_entry_pairs.
  - apply parse_member_dump.
  - intros [key v]. unfold dump_member, dump_string. cbn [fst snd app].
    by eexists _, _.
Qed.

(** [json.loads(json.dumps(entries))] gives the records back, in order, with
    all their fields. *)
Lemma loads_dumps (entries : list entry) : loads (dumps entries) = Some entries.
Proof.
  unfold loads, dumps.
  replace (skip_ws (dump_items "[" "]" 0 (map (dump_entry 1) entries)))
    with (dump_items "[" "]" 0 (map (dump_entry 1) entries) ++ []).
  - rewrite parse_container_dump; try done.
    + apply parse_entry_dump.
    + intros e. unfold dump_entry.
      destruct (members 1 e); by eexists _, _.
  - rewrite app_nil_r. by destruct entries.
Qed.

(** ** The written text has no carriage return

    [json.dumps] escapes the carriage returns of the strings, and writes
    none of its own. *)

Lemma no_cr_app (s t : str) :
  no_carriage_return (s ++ t) = no_carriage_return s && no_carriage_return t.
Proof. apply forallb_app. Qed.

Lemma no_cr_escape (c : ascii) : no_carriage_return (escape c) = true.
Proof. destruct c as [[] [] [] [] [] [] [] []]; reflexivity. Qed.

Lemma no_cr_indent (n : nat) : no_carriage_return (indent n) = true.
Proof. induction n as [|n IH]; [done|exact IH]. Qed.

Lemma no_cr_dump_string (s : str) : no_carriage_return (dump_string s) = true.
Proof.
  unfold dump_string. change (quote :: ?t) with ([quote] ++ t).
  rewrite !no_cr_app. cbn [no_carriage_return forallb andb].
  rewrite andb_true_r. change (negb (is_code 13 quote)) with true. cbn [andb].
  induction s as [|c s IH]; [done|].
  cbn [map concat]. fold (no_carriage_return (escape c ++ concat (map escape s))).
  by rewrite no_cr_app, no_cr_escape.
Qed.

Lemma no_cr_join (sep : str) (items : list str) :
  no_carriage_return sep = true →
  Forall (fun item => no_carriage_return item = true) items →
  no_carriage_return (str_join sep items) = true.
Proof.
  intros Hsep. induction 1 as [|item items Hitem Hitems IH]; [done|].
  destruct items as [|item' items]; [done|].
  rewrite str_join_cons by done. by rewrite !no_cr_app, Hitem, Hsep, IH.
Qed.

Lemma no_cr_cons (c : ascii) (s : str) :
  no_carriage_return (c :: s) = negb (is_code 13 c) && no_carriage_return s.
Proof. reflexivity. Qed.

Lemma no_cr_dump_items (open_c close_c : ascii) (level : nat)
    (items : list str) :
  is_code 13 open_c = false → is_code 13 close_c = false →
  Forall (fun item => no_carriage_return item = true) items →
  no_carriage_return (dump_items open_c close_c level items) = true.
Proof.
  intros Hopen Hclose Hitems. unfold dump_items.
  destruct items as [|item items].
  { by rewrite !no_cr_cons, Hopen, Hclose. }
  set (l := item :: items) in *.
  rewrite !no_cr_cons, no_cr_app, no_cr_cons, no_cr_app, no_cr_cons.
  rewrite Hopen, Hclose, no_cr_indent.
  rewrite no_cr_join; [done| done |].
  apply Forall_map. eapply Forall_impl; [exact Hitems|].
  intros x Hx. cbn beta. by rewrite no_cr_app, no_cr_indent, Hx.
Qed.

Lemma no_cr_dump_string_list (level : nat) (l : list str) :
  no_carriage_return (dump_string_list level l) = true.
Proof.
  unfold dump_string_list. apply no_cr_dump_items; [done|done|].
  apply Forall_map, Forall_forall. intros s _. apply no_cr_dump_string.
Qed.

Lemma no_cr_member (key : string) (value : str) :
  no_carriage_return (py key) = true → no_carriage_return value = true →
  no_carriage_return (member key value) = true.
Proof.
  intros Hkey Hvalue. unfold member. rewrite !no_cr_app.
  by rewrite no_cr_dump_string, Hvalue.
Qed.

Lemma no_cr_dump_entry (level : nat) (e : entry) :
  no_carriage_return (dump_entry level e) = true.
Proof.
  unfold dump_entry. apply no_cr_dump_items; [done|done|].
  unfold members. repeat apply Forall_app_2;
  match goal with
  | |- Forall _ (opt_member _ _ ?field) =>
      destruct field; [|constructor];
      constructor; [|constructor];
      apply no_cr_member; [reflexivity|];
      first [apply no_cr_dump_string | apply no_cr_dump_string_list]
  end.
Qed.

Lemma no_cr_dumps (entries : list entry) :
  no_carriage_return (dumps entries) = true.
Proof.
  unfold dumps. apply no_cr_dump_items; [done|done|].
  apply Forall_map, Forall_forall. intros e _. apply no_cr_dump_entry.
Qed.

End JsonRoundTrip.

(* ===================================================================== *)
(** * Properties of the knowledge store                                   *)
(* ===================================================================== *)

Section StoreProperties.
Import KnowledgeBaseManager.

Context {FS : Type} `{!FileSystem FS}.

Lemma read_json_written (fs fs' : FS) (path : str) (entries : list entry) :
  fs_write fs path (Json.dumps entries) = Some fs' →
  read_json fs' path = Ok entries.
Proof.
  intros Hw. unfold read_json.
  by rewrite (fs_write_read _ _ _ _ (no_cr_dumps entries) Hw), loads_dumps.
Qed.

Lemma save_inv (st st' : store FS) (category : str) (entries : list entry) :
  save_knowledge_base st category entries = Ok st' →
  fs_write (disk st) (kb_file category) (Json.dumps entries) = Some (disk st')
  ∧ metadata st' = metadata st.
Proof.
  unfold save_knowledge_base.
  destruct (fs_write _ _ _) as [fs'|]; [|done]. by intros [= <-].
Qed.

Lemma load_saved (st st' : store FS) (category : str) (entries : list entry) :
  save_knowledge_base st category entries = Ok st' →
  load_knowledge_base st' category = Ok entries.
Proof.
  intros Hsave. apply save_inv in Hsave as [Hw _].
  unfold load_knowledge_base.
  rewrite (fs_write_exists _ _ _ _ Hw). by apply (read_json_written (disk st)).
Qed.

Lemma existing_loaded (st : store FS) (category : str) (entries : list entry) :
  load_knowledge_base st category = Ok entries →
  existing_entries st category = Ok entries.
Proof.
  unfold load_knowledge_base, existing_entries.
  by destruct (fs_exists _ _).
Qed.

Lemma stored_loaded (st : store FS) (category : str) (entries : list entry) :
  load_knowledge_base st category = Ok entries → stored st category = entries.
Proof. unfold stored. by intros ->. Qed.

(** C9. When [save_knowledge_base(p, records)] has returned, loading the
    partition [p] returns [records]: the same records, in the same order,
    with the same fields, read back from the JSON text that was written.
    The metadata is as it was. *)
Theorem save_load_round_trip (st st' : store FS) (p : str)
    (records : list entry) :
  save_knowledge_base st p records = Ok st' →
  load_knowledge_base st' p = Ok records ∧ metadata st' = metadata st.
Proof.
  intros Hsave. split; [by apply (load_saved st)|].
  by apply save_inv in Hsave as [_ ?].
Qed.

Lemma search_loop_unlimited (query_lower : str) (limit : option Z)
    (entries results : list entry) :
  (∀ rs, limit_reached limit rs = false) →
  search_loop query_lower limit entries results
  = results ++ filter (fun e => entry_matches query_lower e = true) entries.
Proof.
  intros Hlim. revert results.
  induction entries as [|e rest IH]; intros results; simpl.
  - by rewrite app_nil_r.
  - rewrite filter_cons. destruct (entry_matches query_lower e) eqn:Hm.
    + rewrite Hlim, IH. rewrite decide_True by done. by rewrite <- app_assoc.
    + rewrite IH. rewrite decide_False by done. done.
Qed.

(** C10. With [limit = 0] the search returns every record whose title or
    content contains the query, in partition order, exactly as with no limit:
    a zero limit is falsy and never stops the loop. *)
Theorem search_limit_zero_is_no_limit (st : store FS) (category query : str) :
  search_knowledge_base st category query (Some 0%Z)
  = search_knowledge_base st category query None
  ∧ search_knowledge_base st category query (Some 0%Z)
    = result_map (filter (fun e => entry_matches (str_lower query) e = true))
                 (load_knowledge_base st category).
Proof.
  unfold search_knowledge_base.
  destruct (load_knowledge_base st category) as [entries|e]; simpl; [|done].
  rewrite !search_loop_unlimited by done. done.
Qed.

End StoreProperties.

Section DedupProperties.
Import KnowledgeBaseManager.

Context {FS : Type} `{!FileSystem FS}.
Variable sha256_hexdigest : str → str.

Local Abbreviation content_hash := (_compute_content_hash sha256_hexdigest).
Local Abbreviation fp := (fingerprint sha256_hexdigest).
Local Abbreviation is_duplicate := (is_content_duplicate sha256_hexdigest).
Local Abbreviation record_hash := (_record_content_hash sha256_hexdigest).
Local Abbreviation append := (append_to_knowledge_base sha256_hexdigest).
Local Abbreviation accepted := (accepted_candidates sha256_hexdigest).
Local Abbreviation rejected := (rejected_as_duplicate sha256_hexdigest).

Lemma record_hash_disk (st : store FS) (content category : str) :
  disk (record_hash st content category) = disk st.
Proof. unfold _record_content_hash. by case_bool_decide. Qed.

Lemma record_hash_hashes (st : store FS) (content category h : str) :
  h ∈ category_hashes (metadata (record_hash st content category)) category
  ↔ h ∈ category_hashes (metadata st) category ∨ h = content_hash content.
Proof.
  unfold _record_content_hash.
  fold (category_hashes (metadata st) category).
  case_bool_decide as Hin.
  - split; [by left|]. by intros [?| ->].
  - unfold category_hashes at 1; simpl. rewrite lookup_insert_eq; simpl.
    rewrite elem_of_app, list_elem_of_singleton. done.
Qed.

Lemma existing_same_disk (st st' : store FS) (category : str) :
  disk st' = disk st →
  existing_entries st' category = existing_entries st category.
Proof. unfold existing_entries. by intros ->. Qed.

(** With the records of the partition at hand, the duplicate check is the
    hash check or the similarity check; a missing file counts as no record. *)
Lemma is_duplicate_spec (st : store FS) (content category : str)
    (threshold : QArith_base.Q) (before : list entry) :
  existing_entries st category = Ok before →
  is_duplicate st content category threshold
  = Ok (bool_decide (content_hash content
                     ∈ category_hashes (metadata st) category)
        || similar_in content threshold before).
Proof.
  unfold existing_entries, is_content_duplicate, load_knowledge_base.
  intros Hex. case_bool_decide; [done|]. simpl.
  destruct (fs_exists _ _).
  - by rewrite Hex.
  - by injection Hex as <-.
Qed.

(** C7. Loading a partition whose file is absent raises [FileNotFoundError]
    (it does not return an empty list), while the duplicate check catches
    that error: on a missing partition its answer is the hash check alone. *)
Theorem missing_partition_load_fails_duplicate_check_falls_back
    (st : store FS) (category : str) :
  fs_exists (disk st) (kb_file category) = false →
  load_knowledge_base st category = Raise (FileNotFoundError (kb_file category))
  ∧ load_knowledge_base st category ≠ Ok []
  ∧ ∀ content threshold,
      is_duplicate st content category threshold
      = Ok (bool_decide (content_hash content
                         ∈ category_hashes (metadata st) category)).
Proof.
  intros Hnone. split; [|split].
  - unfold load_knowledge_base. by rewrite Hnone.
  - unfold load_knowledge_base. by rewrite Hnone.
  - intros content threshold.
    rewrite (is_duplicate_spec st content category threshold []).
    + by rewrite orb_false_r.
    + unfold existing_entries. by rewrite Hnone.
Qed.

Lemma accepted_length (skip : bool) (hashes : list str)
    (before taken new_entries : list entry) :
  length (accepted skip hashes before taken new_entries) ≤ length new_entries.
Proof.
  revert taken. induction new_entries as [|e rest IH]; intros taken; simpl;
    [done|].
  destruct (skip && _); simpl.
  - specialize (IH taken). lia.
  - specialize (IH (taken ++ [e])). lia.
Qed.

Lemma accepted_elem (skip : bool) (hashes : list str)
    (before taken new_entries : list entry) (e : entry) :
  e ∈ accepted skip hashes before taken new_entries → e ∈ new_entries.
Proof.
  revert taken. induction new_entries as [|x rest IH]; intros taken; simpl;
    [done|].
  destruct (skip && _).
  - intros Hin. apply list_elem_of_further. by apply (IH taken).
  - intros [->|Hin]%elem_of_cons; [apply list_elem_of_here|].
    apply list_elem_of_further. by apply (IH (taken ++ [x])).
Qed.

(** Without duplicate detection every candidate is kept. *)
Lemma accepted_without_detection (hashes : list str)
    (before taken new_entries : list entry) :
  accepted false hashes before taken new_entries = new_entries.
Proof.
  revert taken. induction new_entries as [|e rest IH]; intros taken; simpl;
    [done|]. by rewrite IH.
Qed.

(** A batch of one candidate. *)
Lemma accepted_single (hashes : list str) (before : list entry) (e : entry) :
  accepted true hashes before [] [e]
  = if bool_decide (fp e ∈ hashes)
       || similar_in (Entry.get_content e) default_threshold before
    then [] else [e].
Proof.
  cbn [accepted_candidates andb]. unfold rejected_as_duplicate.
  cbn [map similar_in existsb]. by rewrite app_nil_r, orb_false_r.
Qed.

(** The loop of [append]: it leaves the files alone, keeps the candidates
    that are not rejected, counts the others, and records the fingerprint
    of every candidate it keeps. *)
Lemma append_loop_spec (category : str) (skip : bool) (new_entries : list entry)
    (st : store FS) (to_add : list entry) (skipped : nat)
    (hashes : list str) (before : list entry) :
  existing_entries st category = Ok before →
  (∀ h, h ∈ category_hashes (metadata st) category
        ↔ h ∈ hashes ++ map fp to_add) →
  let added := accepted skip hashes before to_add new_entries in
  ∃ st', append_loop sha256_hexdigest category skip new_entries st to_add skipped
         = Ok (st', to_add ++ added,
               skipped + (length new_entries - length added))
       ∧ disk st' = disk st
       ∧ ∀ h, h ∈ category_hashes (metadata st') category
              ↔ h ∈ hashes ++ map fp (to_add ++ added).
Proof.
  revert st to_add skipped.
  induction new_entries as [|e rest IH]; intros st to_add skipped Hex Hhashes.
  { simpl. exists st. rewrite app_nil_r, Nat.add_0_r. done. }
  cbn zeta. cbn [append_loop accepted_candidates].
  assert (Hdup : (if skip
                  then is_duplicate st (Entry.get_content e) category
                         default_threshold
                  else Ok false)
                 = Ok (skip && (bool_decide (fp e ∈ hashes ++ map fp to_add)
                        || similar_in (Entry.get_content e) default_threshold
                             before))).
  { destruct skip; [|done]. rewrite (is_duplicate_spec _ _ _ _ before Hex).
    simpl. do 2 f_equal. apply bool_decide_ext, Hhashes. }
  rewrite Hdup. cbn [result_bind]. unfold rejected_as_duplicate, duplicate_in_batch.
  pose proof (accepted_length skip hashes before to_add rest) as Hlen1.
  pose proof (accepted_length skip hashes before (to_add ++ [e]) rest) as Hlen2.
  destruct (skip && (bool_decide (fp e ∈ hashes ++ map fp to_add)
                     || similar_in (Entry.get_content e) default_threshold
                          before)) eqn:Hfirst.
  - (* rejected by the check against the store *)
    destruct skip; [|done]. simpl in Hfirst. simpl. rewrite Hfirst. simpl.
    destruct (IH st to_add (S skipped) Hex Hhashes) as (st' & Hloop & Hdisk & Hh).
    exists st'. rewrite Hloop. split; [|done].
    do 2 f_equal; cbn [length]; lia.
  - destruct skip; simpl in Hfirst; simpl.
    + rewrite Hfirst. simpl.
      destruct (similar_in (Entry.get_content e) default_threshold to_add).
      * (* rejected by the check against the batch *)
        destruct (IH st to_add (S skipped) Hex Hhashes)
          as (st' & Hloop & Hdisk & Hh).
        exists st'. rewrite Hloop. split; [|done].
        do 2 f_equal; cbn [length]; lia.
      * (* kept *)
        destruct (IH (record_hash st (Entry.get_content e) category)
                    (to_add ++ [e]) skipped) as (st' & Hloop & Hdisk & Hh).
        { rewrite <- Hex. apply existing_same_disk, record_hash_disk. }
        { intros h. rewrite record_hash_hashes, Hhashes.
          rewrite map_app, !elem_of_app. simpl.
          rewrite list_elem_of_singleton. unfold fingerprint. tauto. }
        exists st'. rewrite Hloop, <- !app_assoc. simpl.
        rewrite Hdisk, record_hash_disk. rewrite <- app_assoc in Hh. simpl in Hh.
        split; [|done]. do 2 f_equal; lia.
    + destruct (IH (record_hash st (Entry.get_content e) category)
                  (to_add ++ [e]) skipped) as (st' & Hloop & Hdisk & Hh).
      { rewrite <- Hex. apply existing_same_disk, record_hash_disk. }
      { intros h. rewrite record_hash_hashes, Hhashes.
        rewrite map_app, !elem_of_app. simpl.
        rewrite list_elem_of_singleton. unfold fingerprint. tauto. }
      exists st'. rewrite Hloop, <- !app_assoc. simpl.
      rewrite Hdisk, record_hash_disk. rewrite <- app_assoc in Hh. simpl in Hh.
      split; [|done]. do 2 f_equal; lia.
Qed.

(** What an append that returned has done. *)
Lemma append_spec (st st' : store FS) (category : str)
    (new_entries : list entry) (skip : bool) (report : append_report) :
  append st category new_entries skip = Ok (st', report) →
  ∃ before,
    existing_entries st category = Ok before
    ∧ let added := accepted skip (category_hashes (metadata st) category)
                     before [] new_entries in
      load_knowledge_base st' category = Ok (before ++ added)
      ∧ report = mk_report (length added) (length new_entries - length added)
      ∧ ∀ h, h ∈ category_hashes (metadata st') category
             ↔ h ∈ category_hashes (metadata st) category ++ map fp added.
Proof.
  unfold append_to_knowledge_base.
  destruct (existing_entries st category) as [before|err] eqn:Hex; [|done].
  cbn [result_bind].
  destruct (append_loop_spec category skip new_entries st [] 0
              (category_hashes (metadata st) category) before Hex)
    as (st1 & Hloop & Hdisk & Hh).
  { intros h. by rewrite app_nil_r. }
  rewrite Hloop. cbn [result_bind app].
  destruct (save_knowledge_base st1 category _) as [st2|err] eqn:Hsave; [|done].
  cbn [result_bind]. intros [= <- <-].
  exists before. split; [done|]. cbn zeta.
  split; [by apply (load_saved st1)|]. split; [done|].
  intros h. apply save_inv in Hsave as [_ ->]. apply Hh.
Qed.

(** An append returns when the file of the partition can be read and
    written. *)
Lemma append_returns (st : store FS) (category : str)
    (new_entries : list entry) (skip : bool) (before : list entry) :
  existing_entries st category = Ok before →
  (∀ text, is_Some (fs_write (disk st) (kb_file category) text)) →
  ∃ st' report, append st category new_entries skip = Ok (st', report).
Proof.
  intros Hex Hwrite. unfold append_to_knowledge_base. rewrite Hex.
  cbn [result_bind].
  destruct (append_loop_spec category skip new_entries st [] 0
              (category_hashes (metadata st) category) before Hex)
    as (st1 & Hloop & Hdisk & _).
  { intros h. by rewrite app_nil_r. }
  rewrite Hloop. cbn [result_bind app]. unfold save_knowledge_base.
  rewrite Hdisk.
  destruct (Hwrite (Json.dumps
                      (before ++ accepted skip
                                   (category_hashes (metadata st) category)
                                   before [] new_entries))) as [fs' ->].
  cbn [result_bind]. by eexists _, _.
Qed.

Lemma validate_entry_title (e : entry) :
  validate_entry e = true → Entry.title e ≠ None ∧ Entry.title e ≠ Some [].
Proof.
  unfold validate_entry; simpl. unfold Entry.lookup; simpl.
  destruct (Entry.title e) as [[|c t]|]; [done| |done].
  intros _. split; done.
Qed.

(** C3 (amended). [append] performs no validation of its own.  When it has
    returned, the partition holds the records it held before (none when it
    had no file) followed by the candidates that were not rejected as
    duplicates, in the order of the batch, and the report counts the
    candidates kept and the candidates rejected.  Hence when every record
    held before and every chunk of the batch passes [validate_entry], every
    record held after the append passes it, and none has a missing or empty
    title. *)
Theorem append_stores_accepted_candidates (st st' : store FS) (category : str)
    (new_entries : list entry) (skip_duplicates : bool)
    (report : append_report) :
  append st category new_entries skip_duplicates = Ok (st', report) →
  ∃ before,
    existing_entries st category = Ok before
    ∧ let added := accepted skip_duplicates
                     (category_hashes (metadata st) category)
                     before [] new_entries in
      load_knowledge_base st' category = Ok (before ++ added)
      ∧ report = mk_report (length added) (length new_entries - length added)
      ∧ (Forall (fun e => validate_entry e = true) before →
         Forall (fun e => validate_entry e = true) new_entries →
         Forall (fun e => validate_entry e = true
                          ∧ Entry.title e ≠ None ∧ Entry.title e ≠ Some [])
                (before ++ added)).
Proof.
  intros Happend.
  destruct (append_spec _ _ _ _ _ _ Happend) as (before & Hex & Hload & Hrep & _).
  exists before. split; [done|]. cbn zeta. split; [done|]. split; [done|].
  intros Hold Hnew. apply Forall_forall. intros e.
  rewrite elem_of_app. rewrite Forall_forall in Hold, Hnew.
  intros [Hin|Hin].
  - split; [|apply validate_entry_title]; by apply Hold.
  - apply accepted_elem in Hin.
    split; [|apply validate_entry_title]; by apply Hnew.
Qed.

(** C4 (amended). Two appends of chunks of the same content, with duplicate
    detection, that have both returned.  The second one adds nothing and
    reports one skipped duplicate.  The first one adds its chunk after the
    records the partition held, and skips none, unless the content was a
    duplicate already (its fingerprint recorded for the partition, or a
    record of similar content held): then it adds nothing either and reports
    one skipped duplicate. *)
Theorem append_same_content_twice (st st1 st2 : store FS) (category : str)
    (e1 e2 : entry) (r1 r2 : append_report) :
  Entry.get_content e2 = Entry.get_content e1 →
  append st category [e1] true = Ok (st1, r1) →
  append st1 category [e2] true = Ok (st2, r2) →
  ∃ before,
    existing_entries st category = Ok before
    ∧ let duplicate :=
        bool_decide (content_hash (Entry.get_content e1)
                     ∈ category_hashes (metadata st) category)
        || similar_in (Entry.get_content e1) default_threshold before in
      load_knowledge_base st1 category
      = Ok (if duplicate then before else before ++ [e1])
      ∧ r1 = (if duplicate then mk_report 0 1 else mk_report 1 0)
      ∧ load_knowledge_base st2 category = load_knowledge_base st1 category
      ∧ r2 = mk_report 0 1.
Proof.
  intros Hsame Hfirst Hsecond.
  destruct (append_spec _ _ _ _ _ _ Hfirst)
    as (before & Hex & Hload1 & Hrep1 & Hh1).
  cbn zeta in *. rewrite accepted_single in Hload1, Hrep1, Hh1.
  unfold fingerprint in Hload1, Hrep1, Hh1.
  set (dup := bool_decide _ || similar_in _ _ before) in *.
  destruct (append_spec _ _ _ _ _ _ Hsecond)
    as (before1 & Hex1 & Hload2 & Hrep2 & _).
  rewrite (existing_loaded _ _ _ Hload1) in Hex1. injection Hex1 as <-.
  exists before. split; [done|].
  cbn zeta in *. rewrite accepted_single in Hload2, Hrep2.
  unfold fingerprint in Hload2, Hrep2. rewrite Hsame in Hload2, Hrep2.
  assert (Hdup2 :
    bool_decide (content_hash (Entry.get_content e1)
                 ∈ category_hashes (metadata st1) category)
    || similar_in (Entry.get_content e1) default_threshold
         (before ++ (if dup then [] else [e1])) = true).
  { subst dup.
    destruct (bool_decide (content_hash (Entry.get_content e1)
                           ∈ category_hashes (metadata st) category)) eqn:Hbd.
    - apply bool_decide_eq_true_1 in Hbd. cbn [orb] in Hh1 |- *.
      rewrite bool_decide_eq_true_2; [done|].
      apply Hh1, elem_of_app. by left.
    - cbn [orb] in Hh1 |- *.
      destruct (similar_in _ _ before) eqn:Hsim.
      + rewrite app_nil_r, Hsim. apply orb_true_r.
      + rewrite bool_decide_eq_true_2; [done|].
        apply Hh1, elem_of_app. right. apply list_elem_of_here. }
  rewrite Hdup2 in Hload2, Hrep2.
  rewrite app_nil_r in Hload2. cbn [length Nat.sub] in Hrep2.
  change (bool_decide (_ ∈ category_hashes (metadata st) category) || _)
    with dup.
  split; [|split; [|split]].
  - rewrite Hload1. by destruct dup; rewrite ?app_nil_r.
  - rewrite Hrep1. by destruct dup.
  - by rewrite Hload2, Hload1.
  - done.
Qed.

End DedupProperties.

Section StoreExamples.
Import KnowledgeBaseManager.

Lemma flat_dir_writable (d : flat_dir) (text : str) :
  is_Some (fs_write d (kb_file fall) text).
Proof. by eexists. Qed.

(** A directory without sub-directories cannot hold the partition [a/b]:
    saving raises. *)
Example save_raises_without_parent_directory :
  save_knowledge_base initial_store (py "a/b") two_chunks
  = Raise (OSError (py "a/b_base.json")).
Proof. reflexivity. Qed.

(** The file a save writes, and what is read back from it. *)
Example saved_file_text :
  fs_read (disk saved_store) (py "fall_base.json")
  = Some (Json.dumps two_chunks)
  ∧ Json.loads (Json.dumps two_chunks) = Some two_chunks.
Proof. split; reflexivity. Qed.

Lemma save_load_round_trip_witness :
  load_knowledge_base saved_store fall = Ok two_chunks
  ∧ metadata saved_store = metadata initial_store.
Proof.
  apply (save_load_round_trip initial_store saved_store fall two_chunks).
  reflexivity.
Defined.

(** Whatever the hash function, an append of one chunk to the fresh store
    returns, and stores the chunk. *)
Lemma append_to_fresh_store (sha : str → str) (e : entry) :
  ∃ st' report,
    append_to_knowledge_base sha initial_store fall [e] true = Ok (st', report)
    ∧ load_knowledge_base st' fall = Ok [e]
    ∧ ∀ h, h ∈ category_hashes (metadata st') fall ↔ h = fingerprint sha e.
Proof.
  destruct (append_returns sha initial_store fall [e] true [])
    as (st' & report & Happend); [done|apply flat_dir_writable|].
  exists st', report. split; [done|].
  destruct (append_spec sha _ _ _ _ _ _ Happend)
    as (before & Hex & Hload & _ & Hh).
  injection Hex as <-. cbn zeta in *.
  replace (category_hashes (metadata initial_store) fall) with (@nil str)
    in * by reflexivity.
  cbn [accepted_candidates] in *. unfold rejected_as_duplicate in *.
  cbn [map similar_in existsb app andb orb] in *.
  rewrite bool_decide_eq_false_2 in Hload, Hh by apply not_elem_of_nil.
  split; [done|]. intros h. rewrite Hh. cbn [map app].
  apply list_elem_of_singleton.
Qed.

(** C3 (counterexample). Whatever the hash function, appending a chunk with
    an empty title to a fresh store returns and stores it, although
    [validate_entry] rejects that chunk. *)
Lemma append_stores_untitled_chunk :
  validate_entry untitled_chunk = false
  ∧ ¬ ∃ sha : str → str,
        ∀ st' report,
          append_to_knowledge_base sha initial_store fall [untitled_chunk] true
          = Ok (st', report) →
          ∀ e, e ∈ stored st' fall → Entry.title e ≠ Some [].
Proof.
  split; [reflexivity|].
  intros [sha Hclaim].
  destruct (append_to_fresh_store sha untitled_chunk)
    as (st' & report & Happend & Hload & _).
  apply (Hclaim st' report Happend untitled_chunk); [|reflexivity].
  rewrite (stored_loaded _ _ _ Hload). apply list_elem_of_here.
Qed.

Lemma append_stores_accepted_candidates_witness :
  ∃ before,
    existing_entries initial_store fall = Ok before
    ∧ let added := accepted_candidates (fun x => x) true
                     (category_hashes (metadata initial_store) fall)
                     before [] [hard_hat_chunk; hard_hat_chunk] in
      load_knowledge_base (appended_store [hard_hat_chunk]) fall
      = Ok (before ++ added)
      ∧ mk_report 1 1 = mk_report (length added) (2 - length added)
      ∧ (Forall (fun e => validate_entry e = true) before →
         Forall (fun e => validate_entry e = true)
                [hard_hat_chunk; hard_hat_chunk] →
         Forall (fun e => validate_entry e = true
                          ∧ Entry.title e ≠ None ∧ Entry.title e ≠ Some [])
                (before ++ added)).
Proof.
  apply (append_stores_accepted_candidates (fun x => x) initial_store
           (appended_store [hard_hat_chunk]) fall
           [hard_hat_chunk; hard_hat_chunk] true (mk_report 1 1)).
  vm_compute. reflexivity.
Defined.

(** C4 (counterexample). Whatever the hash function: append a chunk with an
    empty title to the fresh store, clean the partition (the chunk is
    invalid and is removed, its fingerprint stays in the metadata), then
    append a chunk of the same content twice.  Every call returns; both
    appends reject the chunk as a duplicate, and the partition holds no
    record, not one. *)
Lemma append_twice_after_cleaning_stores_nothing :
  ¬ ∃ sha : str → str,
      ∀ st0 r0 st1 n st2 r2 st3 r3,
        append_to_knowledge_base sha initial_store fall [untitled_chunk] true
        = Ok (st0, r0) →
        clean_and_deduplicate st0 fall = Ok (st1, n) →
        append_to_knowledge_base sha st1 fall [hard_hat_chunk] true
        = Ok (st2, r2) →
        append_to_knowledge_base sha st2 fall [hard_hat_chunk] true
        = Ok (st3, r3) →
        length (stored st3 fall) = 1.
Proof.
  intros [sha Hclaim].
  destruct (append_to_fresh_store sha untitled_chunk)
    as (st0 & r0 & Happend0 & Hload0 & Hh0).
  (* cleaning removes the only record *)
  assert (∃ st1, clean_and_deduplicate st0 fall = Ok (st1, 0)
                 ∧ load_knowledge_base st1 fall = Ok []
                 ∧ metadata st1 = metadata st0) as (st1 & Hclean & Hload1 & Hmeta1).
  { destruct (flat_dir_writable (disk st0) (Json.dumps [])) as [d1 Hw].
    assert (Hsave : save_knowledge_base st0 fall []
                    = Ok (mk_store d1 (metadata st0))).
    { unfold save_knowledge_base. by rewrite Hw. }
    exists (mk_store d1 (metadata st0)).
    split; [|split; [by apply (load_saved st0)|done]].
    unfold clean_and_deduplicate. rewrite Hload0. cbn [result_bind]. cbn zeta.
    replace (filter (fun e => validate_entry e = true) [untitled_chunk])
      with (@nil entry) by reflexivity.
    change (unique_loop ∅ []) with (@nil entry).
    change (0 <? length [untitled_chunk] - length (@nil entry)) with true.
    cbv iota. by rewrite Hsave. }
  (* an append of the same content is rejected, and leaves no record *)
  assert (Hrejected : ∀ st : store flat_dir,
            load_knowledge_base st fall = Ok [] →
            (∀ h, h ∈ category_hashes (metadata st) fall
                  ↔ h = fingerprint sha untitled_chunk) →
            ∃ st' r, append_to_knowledge_base sha st fall [hard_hat_chunk] true
                     = Ok (st', r)
                   ∧ load_knowledge_base st' fall = Ok []
                   ∧ ∀ h, h ∈ category_hashes (metadata st') fall
                          ↔ h = fingerprint sha untitled_chunk).
  { intros st Hload Hh.
    destruct (append_returns sha st fall [hard_hat_chunk] true [])
      as (st' & r & Happend);
      [by apply existing_loaded|apply flat_dir_writable|].
    exists st', r. split; [done|].
    destruct (append_spec sha _ _ _ _ _ _ Happend)
      as (before & Hex & Hload' & _ & Hh').
    rewrite (existing_loaded _ _ _ Hload) in Hex. injection Hex as <-.
    cbn zeta in *. cbn [accepted_candidates] in *.
    unfold rejected_as_duplicate in *.
    rewrite bool_decide_eq_true_2 in Hload', Hh'
      by (rewrite app_nil_r; by apply Hh).
    cbn [orb andb app map] in *. split; [done|].
    intros h. rewrite Hh', app_nil_r. apply Hh. }
  destruct (Hrejected st1 Hload1) as (st2 & r2 & Happend2 & Hload2 & Hh2).
  { intros h. rewrite Hmeta1. apply Hh0. }
  destruct (Hrejected st2 Hload2 Hh2) as (st3 & r3 & Happend3 & Hload3 & _).
  specialize (Hclaim st0 r0 st1 0 st2 r2 st3 r3 Happend0 Hclean Happend2 Happend3).
  rewrite (stored_loaded _ _ _ Hload3) in Hclaim. discriminate Hclaim.
Qed.

Lemma append_same_content_twice_witness :
  ∃ before,
    existing_entries initial_store fall = Ok before
    ∧ let duplicate :=
        bool_decide (_compute_content_hash (fun x => x)
                       (Entry.get_content hard_hat_chunk)
                     ∈ category_hashes (metadata initial_store) fall)
        || similar_in (Entry.get_content hard_hat_chunk) default_threshold
             before in
      load_knowledge_base (appended_store [hard_hat_chunk]) fall
      = Ok (if duplicate then before else before ++ [hard_hat_chunk])
      ∧ mk_report 1 0 = (if duplicate then mk_report 0 1 else mk_report 1 0)
      ∧ load_knowledge_base (appended_store [hard_hat_chunk]) fall
        = load_knowledge_base (appended_store [hard_hat_chunk]) fall
      ∧ mk_report 0 1 = mk_report 0 1.
Proof.
  apply (append_same_content_twice (fun x => x) initial_store
           (appended_store [hard_hat_chunk]) (appended_store [hard_hat_chunk])
           fall hard_hat_chunk untitled_chunk (mk_report 1 0) (mk_report 0 1)).
  - reflexivity.
  - vm_compute. reflexivity.
  - vm_compute. reflexivity.
Defined.

Lemma missing_partition_witness :
  load_knowledge_base initial_store fall
  = Raise (FileNotFoundError (kb_file fall))
  ∧ load_knowledge_base initial_store fall ≠ Ok []
  ∧ ∀ content threshold,
      is_content_duplicate (fun x => x) initial_store content fall threshold
      = Ok (bool_decide (_compute_content_hash (fun x => x) content
                         ∈ category_hashes (metadata initial_store) fall)).
Proof.
  apply (missing_partition_load_fails_duplicate_check_falls_back
           (fun x => x) initial_store fall).
  reflexivity.
Defined.

End StoreExamples.


(* ===================================================================== *)
(** * The chunker                                                         *)
(* ===================================================================== *)

Section ChunkerProperties.
Import DocumentProcessor.

Local Arguments Nat.leb : simpl never.
Local Arguments Nat.ltb : simpl never.
Local Arguments Nat.mul : simpl never.

Lemma tidy_strip (p : str) : tidy_paragraph p → str_strip p = p.
Proof. intros (_ & _ & H1 & H2). by apply str_strip_clean. Qed.

(** What the chunker iterates over are tidy paragraphs. *)
Lemma stripped_paragraphs_tidy (text : str) :
  Forall tidy_paragraph (stripped_paragraphs text).
Proof.
  unfold stripped_paragraphs. apply Forall_forall. intros q Hq.
  apply list_elem_of_filter in Hq as [Hne Hq].
  apply list_elem_of_fmap in Hq as [p [-> Hp]].
  split; [done|]. split; [|split].
  - apply no_blank_line_strip.
    pose proof (split_blank_pieces text) as Hall.
    rewrite Forall_forall in Hall. by apply Hall.
  - apply starts_clean_strip.
  - apply ends_clean_strip.
Qed.

Lemma str_join_snoc (sep : str) (acc : list str) (p : str) :
  acc ≠ [] → str_join sep (acc ++ [p]) = str_join sep acc ++ sep ++ p.
Proof.
  induction acc as [|a acc IH]; [done|]. intros _.
  destruct acc as [|b acc]; [done|].
  change ((a :: b :: acc) ++ [p]) with (a :: ((b :: acc) ++ [p])).
  rewrite str_join_cons by done. rewrite IH by done.
  rewrite (str_join_cons sep a (b :: acc)) by done.
  by rewrite <- !app_assoc.
Qed.

Lemma str_join_nonempty (sep : str) (acc : list str) :
  acc ≠ [] → Forall tidy_paragraph acc → str_join sep acc ≠ [].
Proof.
  destruct acc as [|a acc]; [done|]. intros _ Hall.
  apply Forall_cons in Hall as [(Ha & _) _].
  destruct a as [|c a]; [done|]. by destruct acc.
Qed.

Lemma starts_clean_join (acc : list str) :
  Forall tidy_paragraph acc → starts_clean (str_join blank_line acc) = true.
Proof.
  destruct acc as [|a acc]; [done|]. intros Hall.
  apply Forall_cons in Hall as [(Ha & _ & Hs & _) _].
  destruct a as [|c a]; [done|]. by destruct acc.
Qed.

Lemma ends_clean_join (acc : list str) :
  Forall tidy_paragraph acc → ends_clean (str_join blank_line acc) = true.
Proof.
  induction acc as [|a acc IH]; [done|]. intros Hall.
  apply Forall_cons in Hall as [(Ha & _ & _ & He) Hall].
  destruct acc as [|b acc]; [done|].
  rewrite str_join_cons by done.
  pose proof (str_join_nonempty blank_line (b :: acc)) as Hne.
  rewrite !ends_clean_app; [by apply IH|by apply Hne|].
  destruct (str_join blank_line (b :: acc)); [by destruct Hne|done].
Qed.

Lemma str_strip_join (acc : list str) :
  Forall tidy_paragraph acc →
  str_strip (str_join blank_line acc) = str_join blank_line acc.
Proof.
  intros Hall. apply str_strip_clean;
    [by apply starts_clean_join | by apply ends_clean_join].
Qed.

(** Re-splitting a buffer gives back the paragraphs it was joined from. *)
Lemma stripped_paragraphs_join (acc : list str) :
  Forall tidy_paragraph acc →
  stripped_paragraphs (str_join blank_line acc) = acc.
Proof.
  intros Hall. unfold stripped_paragraphs.
  destruct acc as [|a acc]; [done|].
  rewrite split_join_blank; [|done|].
  - induction Hall as [|p ps Hp Hps IH]; [done|].
    cbn [map]. rewrite tidy_strip by done.
    rewrite filter_cons_True by apply Hp. by rewrite IH.
  - eapply Forall_impl; [exact Hall|]. intros p (_ & ? & _ & ?). done.
Qed.

Lemma add_paragraph_join (acc : list str) (para : str) :
  Forall tidy_paragraph acc →
  add_paragraph (str_join blank_line acc) para
  = str_join blank_line (acc ++ [para]).
Proof.
  intros Hall. destruct acc as [|a acc]; [done|].
  rewrite str_join_snoc by done.
  pose proof (str_join_nonempty blank_line (a :: acc)) as Hne.
  destruct (str_join blank_line (a :: acc)); [by destruct Hne|done].
Qed.

Lemma add_paragraph_length (cur para : str) :
  length (add_paragraph cur para) ≤ length cur + 2 + length para.
Proof.
  destruct cur; simpl; [lia|]. rewrite !length_app. simpl. lia.
Qed.

Lemma should_split_false (cur para : str) (next : option str) :
  should_split cur para next = false → length cur < max_chunk_size.
Proof.
  unfold should_split.
  destruct (Nat.leb_spec max_chunk_size (length cur)); [done|lia].
Qed.

Lemma Forall_tidy (L : nat) (acc : list str) :
  Forall (fun p => tidy_paragraph p ∧ length p ≤ L) acc →
  Forall tidy_paragraph acc.
Proof. intros H. eapply Forall_impl; [exact H|]. by intros p [Hp _]. Qed.

Lemma join_length_snoc (init : list str) (last : str) :
  length (str_join blank_line init)
  ≤ length (str_join blank_line (init ++ [last]))
  ∧ length (str_join blank_line (init ++ [last]))
    ≤ length (str_join blank_line init) + 2 + length last.
Proof.
  destruct init as [|a init]; [simpl; lia|].
  rewrite str_join_snoc by done. rewrite !length_app. simpl. lia.
Qed.

Lemma nonblank_join (acc : list str) :
  Forall tidy_paragraph acc → nonblank (str_join blank_line acc) = true →
  acc ≠ [].
Proof. intros _ Hnb ->. by vm_compute in Hnb. Qed.

Lemma join_nonblank (acc : list str) :
  Forall tidy_paragraph acc → acc ≠ [] →
  nonblank (str_join blank_line acc) = true.
Proof.
  intros Hall Hne. unfold nonblank. rewrite str_strip_join by done.
  pose proof (str_join_nonempty blank_line acc Hne Hall).
  by destruct (str_join blank_line acc).
Qed.

Lemma split_last (acc : list str) :
  acc ≠ [] → ∃ init last, acc = init ++ [last].
Proof.
  induction acc as [|a acc IH]; [done|]. intros _.
  destruct acc as [|b acc]; [by exists [], a|].
  destruct IH as (init & last & Heq); [done|].
  exists (a :: init), last. by rewrite Heq.
Qed.

Lemma closes_at_whole (limit : nat) (g : list str) :
  g ≠ [] → length (str_join blank_line g) < limit → closes_at limit g.
Proof.
  intros Hne Hlen. destruct (split_last g Hne) as (init & last & ->).
  exists init, last. split; [done|].
  pose proof (join_length_snoc init last). lia.
Qed.

Lemma closes_at_bound (L limit : nat) (g : list str) :
  Forall (fun p => tidy_paragraph p ∧ length p ≤ L) g → closes_at limit g →
  length (str_join blank_line g) ≤ limit + 1 + L.
Proof.
  intros Hg (init & last & -> & Hlen).
  apply Forall_app in Hg as [_ Hlast]. apply Forall_cons in Hlast as [[_ HL] _].
  pose proof (join_length_snoc init last). lia.
Qed.

(** The main loop groups the paragraphs that are not headers, in order, into
    chunks; the buffer holds fewer than [max_chunk_size] characters whenever a
    paragraph is about to be added, and only a last buffer under the final
    floor is left out. *)
Lemma chunk_loop_groups (category : str) (L : nat) (paragraphs acc : list str)
    (title : str) :
  Forall (fun p => tidy_paragraph p ∧ length p ≤ L) paragraphs →
  Forall (fun p => tidy_paragraph p ∧ length p ≤ L) acc →
  length (str_join blank_line acc) < max_chunk_size →
  ∃ groups tail,
    map chunk_content (chunk_loop category paragraphs (str_join blank_line acc) title)
    = map (str_join blank_line) groups
    ∧ concat groups ++ tail
      = acc ++ filter (fun p => _is_section_header p = false) paragraphs
    ∧ (tail = [] ∨ 10 * length (str_join blank_line tail) < 4 * min_chunk_size)
    ∧ Forall (fun g => Forall (fun p => tidy_paragraph p ∧ length p ≤ L) g
                       ∧ closes_at max_chunk_size g) groups.
Proof.
  intros Hps. revert acc title.
  induction Hps as [|para rest [Hpara HL] Hrest IH]; intros acc title Hacc Hlen.
  - cbn [chunk_loop].
    destruct (nonblank (str_join blank_line acc)) eqn:Hnb; cbn [andb].
    + destruct (Nat.leb_spec (4 * min_chunk_size)
                  (10 * length (str_join blank_line acc))) as [Hge|Hlt].
      * exists [acc], []. cbn [map chunk_content concat].
        rewrite str_strip_join by (by eapply Forall_tidy).
        rewrite !app_nil_r. repeat split; [by left|].
        constructor; [|constructor]. split; [done|].
        apply closes_at_whole; [|done].
        apply nonblank_join; [by eapply Forall_tidy|done].
      * exists [], acc. rewrite filter_nil, app_nil_r.
        repeat split; [by right|constructor].
    + exists [], acc. rewrite filter_nil, app_nil_r.
      repeat split; [|constructor].
      destruct acc as [|a acc]; [by left|].
      rewrite join_nonblank in Hnb; [done|by eapply Forall_tidy|done].
  - cbn [chunk_loop]. destruct (_is_section_header para) eqn:Hhead.
    + rewrite filter_cons_False by (by rewrite Hhead).
      destruct (nonblank (str_join blank_line acc)
                && (min_chunk_size <=? 2 * length (str_join blank_line acc)))
        eqn:Hflush.
      * destruct (IH [] (str_strip (take 100 para)))
          as (groups & tail & Hmap & Hcat & Htail & Hgroups);
          [constructor | unfold max_chunk_size; simpl; lia|].
        exists (acc :: groups), tail. cbn [map chunk_content concat].
        rewrite str_strip_join by (by eapply Forall_tidy).
        cbn [str_join] in Hmap. rewrite Hmap, <- app_assoc, Hcat.
        repeat split; [done|].
        constructor; [|done]. split; [done|].
        apply andb_true_iff in Hflush as [Hnb _].
        apply closes_at_whole; [|done].
        apply nonblank_join; [by eapply Forall_tidy|done].
      * by apply IH.
    + rewrite filter_cons_True by done.
      rewrite add_paragraph_join by (by eapply Forall_tidy).
      assert (Hacc' : Forall (fun p => tidy_paragraph p ∧ length p ≤ L)
                             (acc ++ [para])).
      { apply Forall_app. split; [done|]. constructor; [done|constructor]. }
      destruct (should_split _ para (head rest)) eqn:Hsplit.
      * destruct (IH [] title)
          as (groups & tail & Hmap & Hcat & Htail & Hgroups);
          [constructor | unfold max_chunk_size; simpl; lia|].
        exists ((acc ++ [para]) :: groups), tail. cbn [map chunk_content concat].
        rewrite str_strip_join by (by eapply Forall_tidy).
        cbn [str_join] in Hmap. rewrite Hmap, <- !app_assoc, Hcat.
        repeat split; [done|].
        constructor; [|done]. split; [done|]. by exists acc, para.
      * apply should_split_false in Hsplit.
        destruct (IH (acc ++ [para]) title)
          as (groups & tail & Hmap & Hcat & Htail & Hgroups); [done|done|].
        exists groups, tail. rewrite Hcat, <- app_assoc. done.
Qed.

(** The forced re-split regroups all the paragraphs of a chunk, in order; its
    buffer holds fewer than [target_chunk_size] characters whenever a
    paragraph is about to be added. *)
Lemma force_loop_groups (title category : str) (L : nat)
    (paragraphs acc : list str) (part_num : nat) :
  Forall (fun p => tidy_paragraph p ∧ length p ≤ L) paragraphs →
  Forall (fun p => tidy_paragraph p ∧ length p ≤ L) acc →
  length (str_join blank_line acc) < target_chunk_size →
  ∃ groups,
    map chunk_content
        (force_loop title category paragraphs (str_join blank_line acc) part_num)
    = map (str_join blank_line) groups
    ∧ concat groups = acc ++ paragraphs
    ∧ Forall (fun g => Forall (fun p => tidy_paragraph p ∧ length p ≤ L) g
                       ∧ closes_at target_chunk_size g) groups.
Proof.
  intros Hps. revert acc part_num.
  induction Hps as [|para rest [Hpara HL] Hrest IH];
    intros acc part_num Hacc Hlen.
  - cbn [force_loop]. destruct acc as [|a acc].
    + exists []. repeat split. constructor.
    + rewrite join_nonblank by (by eapply Forall_tidy || done).
      exists [a :: acc]. cbn [map chunk_content concat].
      rewrite str_strip_join by (by eapply Forall_tidy).
      rewrite !app_nil_r. repeat split.
      constructor; [|constructor]. split; [done|].
      by apply closes_at_whole.
  - cbn [force_loop].
    rewrite add_paragraph_join by (by eapply Forall_tidy).
    assert (Hacc' : Forall (fun p => tidy_paragraph p ∧ length p ≤ L)
                           (acc ++ [para])).
    { apply Forall_app. split; [done|]. constructor; [done|constructor]. }
    destruct (Nat.leb_spec target_chunk_size
                (length (str_join blank_line (acc ++ [para])))) as [Hge|Hlt].
    + destruct (IH [] (S part_num)) as (groups & Hmap & Hcat & Hgroups);
        [constructor | unfold target_chunk_size; simpl; lia|].
      exists ((acc ++ [para]) :: groups). cbn [map chunk_content concat].
      rewrite str_strip_join by (by eapply Forall_tidy).
      cbn [str_join] in Hmap. rewrite Hmap, Hcat, <- app_assoc.
      repeat split.
      constructor; [|done]. split; [done|]. by exists acc, para.
    + destruct (IH (acc ++ [para]) part_num) as (groups & Hmap & Hcat & Hgroups);
        [done|done|].
      exists groups. rewrite Hcat, <- app_assoc. done.
Qed.

Lemma closes_at_mono (a b : nat) (g : list str) :
  a ≤ b → closes_at a g → closes_at b g.
Proof. intros Hab (init & last & Hg & Hlen). exists init, last. split; [done|lia]. Qed.

(** What [_force_split_large_chunks] does to the chunks of the main loop. *)
Lemma force_split_groups (category : str) (L : nat) (chunks : list chunk)
    (groups : list (list str)) :
  map chunk_content chunks = map (str_join blank_line) groups →
  Forall (fun g => Forall (fun p => tidy_paragraph p ∧ length p ≤ L) g
                   ∧ closes_at max_chunk_size g) groups →
  ∃ groups',
    map chunk_content (_force_split_large_chunks chunks category)
    = map (str_join blank_line) groups'
    ∧ concat groups' = concat groups
    ∧ Forall (fun g => closes_at max_chunk_size g
                       ∧ length (str_join blank_line g)
                         ≤ Nat.max max_chunk_size (target_chunk_size + 1 + L))
             groups'.
Proof.
  unfold _force_split_large_chunks.
  revert groups. induction chunks as [|c chunks IH]; intros [|g groups] Hmap Hall;
    try discriminate Hmap.
  { exists []. repeat split. constructor. }
  cbn [map] in Hmap. injection Hmap as Hc Hmap.
  apply Forall_cons in Hall as [[Hg Hclose] Hall].
  destruct (IH groups Hmap Hall) as (rest & Hrest & Hcat & Hok).
  cbn [map concat]. unfold force_split_one at 1.
  destruct (Nat.leb_spec (length (chunk_content c)) max_chunk_size) as [Hle|Hgt].
  - exists (g :: rest). cbn [app map concat]. rewrite Hc, Hrest, Hcat.
    repeat split. constructor; [|done]. split; [done|]. rewrite <- Hc. lia.
  - rewrite Hc, stripped_paragraphs_join by (by eapply Forall_tidy).
    destruct (force_loop_groups (chunk_title c) category L g [] 1 Hg)
      as (pieces & Hpieces & Hpcat & Hpok);
      [constructor | unfold target_chunk_size; simpl; lia|].
    exists (pieces ++ rest). cbn [str_join] in Hpieces.
    rewrite !map_app, concat_app, Hpieces, Hrest, Hpcat, Hcat.
    repeat split. apply Forall_app. split; [|done].
    eapply Forall_impl; [exact Hpok|]. intros g' [Hg' Hclose'].
    split.
    + eapply closes_at_mono; [|exact Hclose'].
      unfold target_chunk_size, max_chunk_size. lia.
    + pose proof (closes_at_bound L _ g' Hg' Hclose'). lia.
Qed.

(** C1 (amended). Every chunk returned by [chunk_text] is the blank-line join
    of whole consecutive paragraphs: the chunks group, in order, all the
    paragraphs that are not section headers, except possibly a last group of
    fewer than 80 characters, which is dropped.  A group is closed as soon as
    the buffer reaches [max_chunk_size], so its join without its last
    paragraph is shorter than [max_chunk_size].  Hence, when no paragraph has
    more than [L] characters, a chunk has at most [max_chunk_size + 1 + L]
    characters, and at most [max(max_chunk_size, target_chunk_size + 1 + L)]
    when the forced re-split runs. *)
Theorem chunk_text_whole_paragraphs (text category : str) (L : nat) :
  Forall (fun p => length p ≤ L) (stripped_paragraphs text) →
  ∃ (groups : list (list str)) (tail : list str),
    map chunk_content (chunk_text text category)
    = map (str_join blank_line) groups
    ∧ concat groups ++ tail = body_paragraphs text
    ∧ (tail = [] ∨ 10 * length (str_join blank_line tail) < 4 * min_chunk_size)
    ∧ Forall (fun g => ∃ init last,
                g = init ++ [last]
                ∧ length (str_join blank_line init) < max_chunk_size) groups
    ∧ Forall (fun g =>
                length (str_join blank_line g)
                ≤ if needs_force_split
                       (chunk_loop category (stripped_paragraphs text) []
                                   (py "Safety Information"))
                  then Nat.max max_chunk_size (target_chunk_size + 1 + L)
                  else max_chunk_size + 1 + L) groups.
Proof.
  intros HL. unfold chunk_text, body_paragraphs.
  assert (Hps : Forall (fun p => tidy_paragraph p ∧ length p ≤ L)
                       (stripped_paragraphs text)).
  { pose proof (stripped_paragraphs_tidy text) as Ht.
    rewrite Forall_forall in *. intros p Hp. split; [by apply Ht|by apply HL]. }
  destruct (chunk_loop_groups category L (stripped_paragraphs text) []
              (py "Safety Information") Hps)
    as (groups & tail & Hmap & Hcat & Htail & Hgroups);
    [constructor | unfold max_chunk_size; simpl; lia|].
  cbn [str_join app] in Hmap, Hcat.
  destruct (needs_force_split _).
  - destruct (force_split_groups category L _ groups Hmap Hgroups)
      as (groups' & Hmap' & Hcat' & Hok).
    exists groups', tail. rewrite Hcat'.
    repeat split; [done|done|done| |].
    + eapply Forall_impl; [exact Hok|]. by intros g [? _].
    + eapply Forall_impl; [exact Hok|]. by intros g [_ ?].
  - exists groups, tail. repeat split; [done|done|done| |].
    + eapply Forall_impl; [exact Hgroups|]. by intros g [_ ?].
    + eapply Forall_impl; [exact Hgroups|]. intros g [Hg Hclose].
      by apply closes_at_bound.
Qed.

End ChunkerProperties.

(* ===================================================================== *)
(** * Paragraph filtering                                                 *)
(* ===================================================================== *)

Section FilterProperties.
Import DocumentProcessor.

(** C6 (amended). In [_filter_paragraphs] the boilerplate test comes first:
    a paragraph that qualifies as a section header is kept exactly when it
    matches no boilerplate phrase pattern.  Being a header exempts it from
    the length and alphabetic-fraction tests only. *)
Theorem header_kept_unless_boilerplate (text para : str) :
  para ∈ str_split blank_line text →
  _is_section_header (str_strip para) = true →
  (para ∈ filtered_paragraphs text ↔ contains_unwanted para = false).
Proof.
  intros Hin Hheader. unfold filtered_paragraphs.
  rewrite list_elem_of_filter. unfold keeps_paragraph.
  rewrite Hheader. destruct (contains_unwanted para); split; try done.
  by intros [? _].
Qed.

End FilterProperties.

Section DocumentExamples.
Import DocumentProcessor.

(** C6 (counterexample). "COPYRIGHT NOTICE" is a section header (upper case,
    sixteen characters) and a paragraph of the text, yet the filter drops it
    because it matches the pattern [^copyright]. *)
Lemma boilerplate_header_is_dropped :
  _is_section_header (py "COPYRIGHT NOTICE") = true
  ∧ str_split blank_line copyright_text
    = [py "COPYRIGHT NOTICE"; harness_sentence]
  ∧ filtered_paragraphs copyright_text = [harness_sentence]
  ∧ _filter_paragraphs copyright_text = harness_sentence.
Proof. vm_compute. repeat split. Qed.

Lemma header_kept_unless_boilerplate_witness :
  py "FALL PROTECTION" ∈ filtered_paragraphs fall_protection_text
  ↔ contains_unwanted (py "FALL PROTECTION") = false.
Proof.
  apply (header_kept_unless_boilerplate fall_protection_text
           (py "FALL PROTECTION")).
  - vm_compute. apply list_elem_of_here.
  - vm_compute. reflexivity.
Defined.

(** C1 (counterexample). Both texts are cleaned texts: [clean_text] returns
    them unchanged.  The first is one paragraph of 2039 characters: the main
    loop makes one chunk of it, the forced re-split runs and returns it
    whole, 2039 characters against a maximum of 800.  The second has three
    paragraphs of 917, 899 and 917 characters: each becomes a chunk, the first
    two included, and no forced re-split runs. *)
Lemma long_paragraph_exceeds_max_chunk_size :
  (clean_text long_paragraph = long_paragraph
   ∧ needs_force_split
       (chunk_loop (py "fall") (stripped_paragraphs long_paragraph) []
                   (py "Safety Information")) = true
   ∧ chunk_text long_paragraph (py "fall")
     = [mk_chunk (py "Safety Information") long_paragraph (py "fall")]
   ∧ length long_paragraph = 2039)
  ∧ (clean_text three_long_paragraphs = three_long_paragraphs
     ∧ needs_force_split
         (chunk_loop (py "fall") (stripped_paragraphs three_long_paragraphs) []
                     (py "Safety Information")) = false
     ∧ map (fun c => length (chunk_content c))
           (chunk_text three_long_paragraphs (py "fall"))
       = [917; 899; 917]
     ∧ max_chunk_size = 800).
Proof.
  split; [split; [|split; [|split]]|split; [|split; [|split]]];
    vm_compute; reflexivity.
Qed.

(** With eight list items of 256 characters the main loop closes two chunks
    of four items (1030 characters each); the forced re-split cuts each into
    two chunks of two items. *)
Example chunk_text_eight_list_items :
  map (fun c => (chunk_title c, length (chunk_content c)))
      (chunk_text eight_list_items (py "fall"))
  = [(py "Safety Information", 514); (py "Safety Information (Part 2)", 514);
     (py "Safety Information", 514); (py "Safety Information (Part 2)", 514)].
Proof. vm_compute. reflexivity. Qed.

Lemma chunk_text_whole_paragraphs_witness :
  ∃ (groups : list (list str)) (tail : list str),
    map chunk_content (chunk_text eight_list_items (py "fall"))
    = map (str_join blank_line) groups
    ∧ concat groups ++ tail = body_paragraphs eight_list_items
    ∧ (tail = [] ∨ 10 * length (str_join blank_line tail) < 4 * min_chunk_size)
    ∧ Forall (fun g => ∃ init last,
                g = init ++ [last]
                ∧ length (str_join blank_line init) < max_chunk_size) groups
    ∧ Forall (fun g =>
                length (str_join blank_line g)
                ≤ if needs_force_split
                       (chunk_loop (py "fall")
                                   (stripped_paragraphs eight_list_items) []
                                   (py "Safety Information"))
                  then Nat.max max_chunk_size (target_chunk_size + 1 + 256)
                  else max_chunk_size + 1 + 256) groups.
Proof.
  apply (chunk_text_whole_paragraphs eight_list_items (py "fall") 256).
  vm_compute. repeat (constructor; [lia|]). constructor.
Defined.

End DocumentExamples.

(* ===================================================================== *)
(** * The text cleaner                                                    *)
(* ===================================================================== *)

Section WhitespaceNormalization.
Import DocumentProcessor.

Local Arguments Nat.leb : simpl never.

Lemma repeat_snoc_app (c : ascii) (n : nat) (s : str) :
  repeat c (S n) ++ s = repeat c n ++ c :: s.
Proof.
  induction n as [|n IH]; [done|].
  change (repeat c (S (S n))) with (c :: repeat c (S n)).
  cbn [app]. rewrite IH. done.
Qed.

Lemma str_startswith_repeat (c : ascii) (k n : nat) (s : str) :
  k ≤ n → str_startswith (repeat c k) (repeat c n ++ s) = true.
Proof.
  revert n. induction k as [|k IH]; intros n Hk; [done|].
  destruct n as [|n]; [lia|]. simpl.
  rewrite ascii_eqb_refl. apply IH. lia.
Qed.

Lemma str_contains_startswith (sub s : str) :
  str_startswith sub s = true → str_contains sub s = true.
Proof. intros H. destruct s; simpl; by rewrite H. Qed.

(** A pending run shorter than [k] is written back as it is. *)
Lemma flush_run_short (c : ascii) (k : nat) (repl : str) (pending : nat) (s : str) :
  str_contains (repeat c k) (repeat c pending ++ s) = false →
  flush_run c k repl pending = repeat c pending.
Proof.
  intros Hno. unfold flush_run.
  destruct (Nat.leb_spec k pending) as [Hle|]; [|done].
  by rewrite (str_contains_startswith _ _ (str_startswith_repeat c k pending s Hle))
    in Hno.
Qed.

(** [re.sub] of runs of a white-space character leaves alone a paragraph that
    has no run of [k] of them and ends in a visible character. *)
Lemma sub_runs_paragraph (c : ascii) (k : nat) (repl : str) (p rest : str)
    (pending : nat) :
  isspace c = true → p ≠ [] → ends_clean p = true →
  str_contains (repeat c k) (repeat c pending ++ p) = false →
  sub_runs c k repl pending (p ++ rest)
  = repeat c pending ++ p ++ sub_runs c k repl 0 rest.
Proof.
  intros Hc. revert pending.
  induction p as [|x p IH]; [done|]. intros pending _ Hend Hno.
  cbn [app sub_runs].
  destruct p as [|y p].
  - assert (Hx : ascii_eqb x c = false).
    { destruct (ascii_eqb x c) eqn:Hx; [|done].
      apply ascii_eqb_eq in Hx. subst x.
      unfold ends_clean in Hend. simpl in Hend. by rewrite Hc in Hend. }
    rewrite Hx. by rewrite (flush_run_short c k repl pending [x]).
  - rewrite ends_clean_cons in Hend by done.
    destruct (ascii_eqb x c) eqn:Hx.
    + apply ascii_eqb_eq in Hx. subst x.
      rewrite IH; [|done|done|by rewrite repeat_snoc_app].
      by rewrite repeat_snoc_app.
    + rewrite (flush_run_short c k repl pending (x :: y :: p)) by done.
      rewrite (IH 0); [done|done|done|].
      apply str_contains_app_r in Hno.
      cbn [str_contains] in Hno. by apply orb_false_iff in Hno as [_ Hno].
Qed.

Lemma not_elem_of_nl_cons (c : ascii) (p : str) :
  nl ∉ c :: p → ascii_eqb nl c = false ∧ nl ∉ p.
Proof.
  intros Hnl. split.
  - destruct (ascii_eqb nl c) eqn:Hc; [|done].
    apply ascii_eqb_eq in Hc. subst c. destruct Hnl. apply list_elem_of_here.
  - intros Hin. apply Hnl. by apply list_elem_of_further.
Qed.

Lemma no_newline_no_run (k : nat) (p : str) :
  0 < k → nl ∉ p → str_contains (repeat nl k) p = false.
Proof.
  intros Hk. destruct k as [|k]; [lia|].
  induction p as [|c p IH]; [done|].
  intros [Hc Hp]%not_elem_of_nl_cons.
  cbn [str_contains repeat str_startswith]. rewrite Hc. simpl. by apply IH.
Qed.

Lemma single_line_no_blank (p : str) : nl ∉ p → no_blank_line p.
Proof. apply (no_newline_no_run 2). lia. Qed.

Lemma single_line_tidy (p : str) : single_line p → tidy_paragraph p.
Proof.
  intros (Hne & Hnl & Hs & He & _). repeat split; try done.
  by apply single_line_no_blank.
Qed.

Lemma sub_runs_other (c : ascii) (k : nat) (repl : str) (x : ascii) (s : str) :
  ascii_eqb x c = false → 0 < k →
  sub_runs c k repl 0 (x :: s) = x :: sub_runs c k repl 0 s.
Proof.
  intros Hx Hk. cbn [sub_runs]. rewrite Hx. unfold flush_run.
  by destruct (Nat.leb_spec k 0); [lia|].
Qed.

(** The two substitutions of step 5 on paragraphs joined by blank lines. *)
Lemma sub_newlines_join (ps : list str) :
  Forall single_line ps →
  sub_runs nl 3 [nl; nl] 0 (str_join blank_line ps) = str_join blank_line ps.
Proof.
  induction ps as [|p ps IH]; [done|]. intros Hall.
  apply Forall_cons in Hall as [(Hne & Hnl & Hs & He & Hsp) Hall].
  destruct ps as [|q ps].
  - cbn [str_join]. rewrite <- (app_nil_r p) at 1.
    rewrite sub_runs_paragraph; try done.
    + simpl. by rewrite app_nil_r.
    + apply no_newline_no_run; [lia|done].
  - rewrite str_join_cons by done.
    rewrite sub_runs_paragraph; try done;
      [|apply no_newline_no_run; [lia|done]].
    cbn [repeat app]. f_equal.
    specialize (IH Hall).
    pose proof Hall as Hq. apply Forall_cons in Hq as [(Hqne & Hqnl & _) _].
    remember (str_join blank_line (q :: ps)) as rest eqn:Hrest.
    assert (Hhead : ∃ y rest', rest = y :: rest' ∧ ascii_eqb y nl = false).
    { destruct q as [|y q]; [done|].
      apply not_elem_of_nl_cons in Hqnl as [Hy _].
      exists y. destruct ps as [|r ps]; subst rest.
      - exists q. split; [done|]. unfold ascii_eqb in *.
        by rewrite Ascii.eqb_sym.
      - rewrite str_join_cons by done.
        eexists. split; [reflexivity|]. unfold ascii_eqb in *.
        by rewrite Ascii.eqb_sym. }
    destruct Hhead as (y & rest' & -> & Hy).
    unfold blank_line. cbn [app sub_runs]. rewrite !ascii_eqb_refl.
    cbn [sub_runs] in IH. rewrite Hy in *.
    unfold flush_run in *. simpl in *. by rewrite IH.
Qed.

Lemma sub_spaces_join (ps : list str) :
  Forall single_line ps →
  sub_runs sp 2 [sp] 0 (str_join blank_line ps) = str_join blank_line ps.
Proof.
  induction ps as [|p ps IH]; [done|]. intros Hall.
  apply Forall_cons in Hall as [(Hne & Hnl & Hs & He & Hsp) Hall].
  destruct ps as [|q ps].
  - cbn [str_join]. rewrite <- (app_nil_r p) at 1.
    rewrite sub_runs_paragraph; try done.
    simpl. by rewrite app_nil_r.
  - rewrite str_join_cons by done.
    rewrite sub_runs_paragraph; try done.
    cbn [repeat app]. f_equal.
    unfold blank_line at 1 3. cbn [app].
    rewrite !sub_runs_other by (reflexivity || lia). by rewrite IH.
Qed.

(** Step 5 changes nothing in a text made of single-line paragraphs. *)
Lemma normalize_whitespace_join (ps : list str) :
  Forall single_line ps →
  normalize_whitespace (str_join blank_line ps) = str_join blank_line ps.
Proof.
  intros Hall. unfold normalize_whitespace.
  rewrite sub_newlines_join, sub_spaces_join by done.
  apply str_strip_join. eapply Forall_impl; [exact Hall|].
  apply single_line_tidy.
Qed.

End WhitespaceNormalization.

Section CleanerProperties.
Import DocumentProcessor.

Lemma filter_all {A} (P : A → Prop) `{∀ x, Decision (P x)} (l : list A) :
  Forall P l → filter P l = l.
Proof.
  induction 1 as [|x l Hx Hl IH]; [done|].
  by rewrite filter_cons_True, IH.
Qed.

(** ** Lines *)

Lemma split_nl_single (p : str) : nl ∉ p → str_split [nl] p = [p].
Proof.
  unfold str_split. induction p as [|c p IH]; [done|].
  intros [Hc Hp]%not_elem_of_nl_cons.
  rewrite split_aux_cons_false; [by rewrite IH|].
  simpl. by rewrite Hc.
Qed.

Lemma split_nl_app (p rest : str) :
  nl ∉ p → str_split [nl] (p ++ nl :: rest) = p :: str_split [nl] rest.
Proof.
  unfold str_split. induction p as [|c p IH].
  - intros _. cbn [app]. by rewrite split_aux_cons_true.
  - intros [Hc Hp]%not_elem_of_nl_cons. cbn [app].
    rewrite split_aux_cons_false; [by rewrite IH|].
    simpl. by rewrite Hc.
Qed.

Lemma split_nl_cons (rest : str) :
  str_split [nl] (nl :: rest) = [] :: str_split [nl] rest.
Proof. apply (split_nl_app [] rest), not_elem_of_nil. Qed.

Lemma split_aux_nonempty (sep : str) (skip : nat) (s : str) :
  split_aux sep skip s ≠ [].
Proof.
  revert skip. induction s as [|c s IH]; intros skip; [done|].
  cbn [split_aux]. destruct skip; [|apply IH].
  destruct (str_startswith sep (c :: s)); [done|].
  specialize (IH 0). by destruct (split_aux sep 0 s).
Qed.

Lemma str_join_cons_head (sep : str) (c : ascii) (ps : list str) :
  ps ≠ [] → str_join sep (cons_head c ps) = c :: str_join sep ps.
Proof. destruct ps as [|p [|q ps]]; done. Qed.

(** Joining the lines of a text gives the text back. *)
Lemma join_split_nl (t : str) : str_join [nl] (str_split [nl] t) = t.
Proof.
  unfold str_split. induction t as [|c t IH]; [done|].
  pose proof (split_aux_nonempty [nl] 0 t) as Hne.
  destruct (str_startswith [nl] (c :: t)) eqn:Hsw.
  - rewrite split_aux_cons_true by done.
    rewrite str_join_cons by done. cbn [length Nat.sub app]. rewrite IH.
    simpl in Hsw. apply andb_true_iff in Hsw as [Hc _].
    apply ascii_eqb_eq in Hc. by subst c.
  - rewrite split_aux_cons_false by done.
    by rewrite str_join_cons_head, IH.
Qed.

Lemma keeps_line_nil : keeps_line [] = true.
Proof. reflexivity. Qed.

(** Every line of a text of kept single-line paragraphs is kept by
    [_remove_page_markers]: the paragraphs themselves and the empty lines
    between them. *)
Lemma lines_kept (ps : list str) :
  Forall (fun p => single_line p ∧ keeps_line p = true) ps →
  Forall (fun line => keeps_line line = true)
         (str_split [nl] (str_join blank_line ps)).
Proof.
  induction ps as [|p ps IH]; [by repeat constructor|]. intros Hall.
  apply Forall_cons in Hall as [[(_ & Hnl & _) Hk] Hall].
  destruct ps as [|q ps].
  - cbn [str_join]. rewrite split_nl_single by done. by repeat constructor.
  - rewrite str_join_cons by done. unfold blank_line at 1. cbn [app].
    rewrite split_nl_app by done.
    rewrite split_nl_cons.
    constructor; [done|]. constructor; [apply keeps_line_nil|]. by apply IH.
Qed.

Lemma remove_page_markers_join (ps : list str) :
  Forall (fun p => single_line p ∧ keeps_line p = true) ps →
  _remove_page_markers (str_join blank_line ps) = str_join blank_line ps.
Proof.
  intros Hall. unfold _remove_page_markers.
  rewrite filter_all by (by apply lines_kept). apply join_split_nl.
Qed.

(** ** The paragraph loops on a text joined from tidy paragraphs *)

Lemma Forall_tidy_split (ps : list str) :
  Forall tidy_paragraph ps →
  Forall (fun p => no_blank_line p ∧ ends_clean p = true) ps.
Proof. intros H. eapply Forall_impl; [exact H|]. by intros p (_ & ? & _ & ?). Qed.

Lemma remove_unwanted_sections_join (ps : list str) :
  Forall tidy_paragraph ps →
  _remove_unwanted_sections (str_join blank_line ps)
  = str_join blank_line (sections_loop false ps).
Proof.
  intros Hall. unfold _remove_unwanted_sections.
  destruct ps as [|p ps]; [by vm_compute|].
  rewrite split_join_blank; [done|done|by apply Forall_tidy_split].
Qed.

Lemma filter_paragraphs_join (ps : list str) :
  Forall tidy_paragraph ps →
  _filter_paragraphs (str_join blank_line ps)
  = str_join blank_line (filter (fun para => keeps_paragraph para = true) ps).
Proof.
  intros Hall. unfold _filter_paragraphs, filtered_paragraphs.
  destruct ps as [|p ps]; [by vm_compute|].
  rewrite split_join_blank; [done|done|by apply Forall_tidy_split].
Qed.

Lemma remove_repeated_content_join (ps : list str) :
  Forall tidy_paragraph ps →
  _remove_repeated_content (str_join blank_line ps)
  = str_join blank_line (repeated_loop ∅ ps).
Proof.
  intros Hall. unfold _remove_repeated_content.
  destruct ps as [|p ps]; [by vm_compute|].
  rewrite split_join_blank; [done|done|by apply Forall_tidy_split].
Qed.

(** ** The loops keep a sub-list *)

Lemma sections_loop_elem (skip : bool) (ps : list str) (x : str) :
  x ∈ sections_loop skip ps →
  x ∈ ps ∧ is_unwanted_header (str_lower (str_strip x)) = false.
Proof.
  revert skip. induction ps as [|p ps IH]; intros skip; cbn [sections_loop].
  - by intros ?%elem_of_nil.
  - destruct (is_unwanted_header (str_lower (str_strip p))) eqn:Hu.
    { intros [? ?]%IH. split; [by apply list_elem_of_further|done]. }
    destruct skip.
    + destruct (_is_section_header p && _).
      * intros [->|[? ?]%IH]%elem_of_cons.
        -- split; [apply list_elem_of_here|done].
        -- split; [by apply list_elem_of_further|done].
      * intros [? ?]%IH. split; [by apply list_elem_of_further|done].
    + intros [->|[? ?]%IH]%elem_of_cons.
      * split; [apply list_elem_of_here|done].
      * split; [by apply list_elem_of_further|done].
Qed.

Lemma sections_loop_id (ps : list str) :
  Forall (fun p => is_unwanted_header (str_lower (str_strip p)) = false) ps →
  sections_loop false ps = ps.
Proof.
  induction 1 as [|p ps Hp Hps IH]; [done|].
  cbn [sections_loop]. by rewrite Hp, IH.
Qed.

Lemma repeated_loop_elem (seen : gset str) (ps : list str) (x : str) :
  x ∈ repeated_loop seen ps → x ∈ ps.
Proof.
  revert seen. induction ps as [|p ps IH]; intros seen; cbn [repeated_loop].
  - done.
  - case_bool_decide.
    { intros ?%IH. by apply list_elem_of_further. }
    destruct (length _ <? 30);
      (intros [->|?%IH]%elem_of_cons;
       [apply list_elem_of_here | by apply list_elem_of_further]).
Qed.

(** Removing repeats a second time removes nothing more. *)
Lemma repeated_loop_idemp (seen : gset str) (ps : list str) :
  repeated_loop seen (repeated_loop seen ps) = repeated_loop seen ps.
Proof.
  revert seen. induction ps as [|p ps IH]; intros seen; [done|].
  cbn [repeated_loop]. case_bool_decide as Hseen; [apply IH|].
  destruct (length (str_lower (str_strip p)) <? 30) eqn:Hshort;
    cbn [repeated_loop]; rewrite bool_decide_eq_false_2 by done;
    rewrite Hshort; by rewrite IH.
Qed.

Lemma cleaned_paragraphs_elem (ps : list str) (x : str) :
  x ∈ cleaned_paragraphs ps →
  x ∈ ps ∧ keeps_paragraph x = true
  ∧ is_unwanted_header (str_lower (str_strip x)) = false.
Proof.
  unfold cleaned_paragraphs.
  intros [Hk [? ?]%sections_loop_elem]%repeated_loop_elem%list_elem_of_filter.
  done.
Qed.

Lemma cleaned_paragraphs_idemp (ps : list str) :
  cleaned_paragraphs (cleaned_paragraphs ps) = cleaned_paragraphs ps.
Proof.
  unfold cleaned_paragraphs at 1.
  rewrite sections_loop_id.
  - rewrite filter_all.
    + unfold cleaned_paragraphs. apply repeated_loop_idemp.
    + apply Forall_forall. by intros x (_ & ? & _)%cleaned_paragraphs_elem.
  - apply Forall_forall. by intros x (_ & _ & ?)%cleaned_paragraphs_elem.
Qed.

(** On kept single-line paragraphs the cleaner acts on whole paragraphs. *)
Lemma clean_text_join (ps : list str) :
  Forall (fun p => single_line p ∧ keeps_line p = true) ps →
  clean_text (str_join blank_line ps)
  = str_join blank_line (cleaned_paragraphs ps).
Proof.
  intros Hall. unfold clean_text, cleaned_paragraphs.
  assert (Hsub : ∀ qs, (∀ x, x ∈ qs → x ∈ ps) →
                       Forall (fun p => single_line p ∧ keeps_line p = true) qs).
  { intros qs Hqs. rewrite Forall_forall in *. auto. }
  assert (Htidy : ∀ qs, (∀ x, x ∈ qs → x ∈ ps) → Forall tidy_paragraph qs).
  { intros qs Hqs. eapply Forall_impl; [by apply Hsub|].
    intros p [Hp _]. by apply single_line_tidy. }
  assert (H1 : ∀ x, x ∈ sections_loop false ps → x ∈ ps).
  { by intros x [? _]%sections_loop_elem. }
  assert (H2 : ∀ x, x ∈ filter (fun para => keeps_paragraph para = true)
                          (sections_loop false ps) → x ∈ ps).
  { intros x [_ ?]%list_elem_of_filter. auto. }
  assert (H3 : ∀ x, x ∈ repeated_loop ∅
                          (filter (fun para => keeps_paragraph para = true)
                                  (sections_loop false ps)) → x ∈ ps).
  { intros x ?%repeated_loop_elem. auto. }
  rewrite remove_unwanted_sections_join by (by apply Htidy).
  rewrite filter_paragraphs_join by (by apply Htidy).
  rewrite remove_page_markers_join by (by apply Hsub).
  rewrite remove_repeated_content_join by (by apply Htidy).
  apply normalize_whitespace_join.
  eapply Forall_impl; [by apply (Hsub _ H3)|]. by intros p [? _].
Qed.

(** C2 (amended). [clean_text] is idempotent on a text made of paragraphs
    separated by one blank line when each paragraph is a single line with no
    white space at its ends, no two spaces in a row, and is not a line that
    step 3 removes.  On such a text cleaning only drops whole paragraphs
    (unwanted sections, boilerplate, short or non-alphabetic paragraphs,
    repeats), and a second pass finds nothing more to drop. *)
Theorem clean_text_idempotent_on_single_lines (ps : list str) :
  Forall (fun p => single_line p ∧ keeps_line p = true) ps →
  clean_text (clean_text (str_join blank_line ps))
  = clean_text (str_join blank_line ps)
  ∧ clean_text (str_join blank_line ps)
    = str_join blank_line (cleaned_paragraphs ps).
Proof.
  intros Hall. split; [|by apply clean_text_join].
  rewrite (clean_text_join ps) by done.
  rewrite clean_text_join.
  - by rewrite cleaned_paragraphs_idemp.
  - rewrite Forall_forall in *.
    intros x (Hx & _)%cleaned_paragraphs_elem. by apply Hall.
Qed.

End CleanerProperties.

Section CleanerExamples.
Import DocumentProcessor.

(** C2 (counterexample). The first paragraph has 22 characters and passes
    the paragraph filter; step 3 then removes its second line (8 characters,
    under 10), leaving "Check harness".  Cleaning that result again drops
    "Check harness" in step 2 (13 characters, under 15): the second pass
    differs from the first. *)
Lemma clean_text_not_idempotent :
  clean_text wrapped_text
  = str_join blank_line [py "Check harness"; harness_sentence]
  ∧ clean_text (clean_text wrapped_text) = harness_sentence
  ∧ clean_text (clean_text wrapped_text) ≠ clean_text wrapped_text.
Proof.
  assert (H1 : clean_text wrapped_text
               = str_join blank_line [py "Check harness"; harness_sentence])
    by (vm_compute; reflexivity).
  assert (H2 : clean_text (clean_text wrapped_text) = harness_sentence)
    by (vm_compute; reflexivity).
  split; [exact H1|]. split; [exact H2|].
  rewrite H2, H1. vm_compute. discriminate.
Qed.

Lemma clean_text_idempotent_on_single_lines_witness :
  clean_text (clean_text (str_join blank_line contents_then_section))
  = clean_text (str_join blank_line contents_then_section)
  ∧ clean_text (str_join blank_line contents_then_section)
    = str_join blank_line (cleaned_paragraphs contents_then_section).
Proof.
  apply (clean_text_idempotent_on_single_lines contents_then_section).
  unfold contents_then_section, single_line.
  repeat (constructor;
          [repeat split;
           try (apply (bool_decide_unpack _); vm_compute; exact I);
           vm_compute; reflexivity
          |]).
  constructor.
Defined.

End CleanerExamples.

(* ===================================================================== *)
(** * The normalization pipeline and its backups                          *)
(* ===================================================================== *)

Section PipelineProperties.
Import KbPipeline.

(** [restore_file] never writes to the backup directory. *)
Lemma restore_file_backups (d : kb_dir) (path : str) :
  backups (restore_file d path).1 = backups d.
Proof.
  unfold restore_file.
  destruct (find_latest_backup_for d path) as [backup|]; [|done].
  destruct (files d !! path) as [cur|]; [|done].
  destruct (backups d !! backup) as [bak|]; [|done].
  by destruct (existsb snd (map (restore_entry bak) cur)).
Qed.

(** [improve_file], when it changes a file, first stores the unmodified
    content under the backup name of this run. *)
Lemma improve_file_backs_up (d : kb_dir) (path now : str) :
  (improve_file d path now).2 = true →
  backups (improve_file d path now).1 !! backup_name path now []
  = files d !! path
  ∧ is_Some (files d !! path).
Proof.
  unfold improve_file. destruct (files d !! path) as [data|]; [|done].
  destruct (existsb snd (map improve_entry data)); [|done].
  intros _. simpl. by rewrite lookup_insert_eq.
Qed.

(** C5 (the code at the failing input). [restore_file] rewrites the partition
    file, restoring "10-15", and leaves the backup directory as it was: the
    content it overwrote, "Keep 10. 15 feet away.", is in no backup. *)
Theorem restore_file_overwrites_without_backup :
  let prior := [ladders_entry (py "Keep 10. 15 feet away.")] in
  let after := restore_file damaged_dir (py "fall_base.json") in
  files damaged_dir !! py "fall_base.json" = Some prior
  ∧ after.2 = true
  ∧ files after.1 !! py "fall_base.json"
    = Some [ladders_entry (py "Keep 10-15 feet away.")]
  ∧ backups after.1 = backups damaged_dir
  ∧ ∀ name, backups after.1 !! name ≠ Some prior.
Proof.
  assert (Hrun : restore_file damaged_dir (py "fall_base.json")
          = (mk_kb_dir
               {[ py "fall_base.json"
                  := [ladders_entry (py "Keep 10-15 feet away.")] ]}
               (backups damaged_dir), true)).
  { vm_compute. reflexivity. }
  cbv zeta. rewrite Hrun. cbn [fst snd files backups].
  split; [by vm_compute|]. split; [done|]. split; [by vm_compute|].
  split; [done|].
  intros name. unfold damaged_dir; cbn [backups].
  destruct (decide (name = py "fall_base.json.20240101T000000Z.fmt.bak"))
    as [->|Hne].
  - rewrite lookup_singleton_eq. intros H. vm_compute in H. discriminate H.
  - by rewrite lookup_singleton_ne.
Qed.

End PipelineProperties.
